(** * Cloud Clipboard Crypto: key ratchet, metadata and file encryption

    A shallow embedding of [src/kdf.ts] ([Kdf]), [src/signature.ts]
    ([Signature]) and [src/symmetric-encryption.ts]
    ([SymmetricEncryption]).

    The cryptographic primitives the TypeScript code calls into
    (argon2-browser, WebCrypto, base64-js, @noble/ed25519, JSON, the text
    codecs) are not part of the repository; they are the fields of the
    class [Providers], the counterpart of the constructor-injected
    [webcrypto] and [kdf] arguments.  Everything the repository itself
    does (option handling in the KDF, the ratchet loop, the static cache,
    the IV framing, the shape checks on metadata) is written out.

    A method is embedded twice.  In [M] a call runs from its start to
    its end: that is a call that no other call overlaps, and [reachable]
    and [inTurn] are the worlds such calls leave when they are made one
    after another.  In [Async] the [await]s of the source are marked,
    and [play] lets the calls of a client take turns at them; run with
    nothing in between, the second embedding does what the first does
    ([launch_alone]). *)

From Stdlib Require Import ZArith QArith Qcanon Qround Strings.Byte.
From stdpp Require Import base numbers option list strings gmap.

Local Open Scope Z_scope.
Set Warnings "-register-all".

(** ** Data *)

(** A [Uint8Array]. *)
Abbreviation bytes := (list Byte.byte).

#[global] Instance byte_eq_dec : EqDecision Byte.byte := Stdlib.Strings.Byte.byte_eq_dec.

Definition octet (n : N) : Byte.byte :=
  match Byte.of_N n with Some b => b | None => Byte.x00 end.

(** A JavaScript [number] used as ratchet count.  Every finite double is a
    rational, and the code only compares the count ([<=], the key equality
    of [Map]), which is exact; [NaN] and the infinities are left out, and
    the loop counter is an integer below 2^53.  *)
Abbreviation number := Qc.

(** JavaScript values, as far as [encryptMetadata] can tell them apart.
    An object is its own properties in insertion order. *)
Inductive JsValue : Type :=
  | JUndefined
  | JNull
  | JBoolean (b : bool)
  | JNumber (n : number)
  | JBigInt (n : Z)
  | JString (s : string)
  | JSymbol (description : string)
  | JFunction (name : string)
  | JArray (elements : list JsValue)
  | JObject (properties : list (string * JsValue)).

(** [typeof v] *)
Definition typeof (v : JsValue) : string :=
  match v with
  | JUndefined => "undefined"
  | JNull => "object"
  | JBoolean _ => "boolean"
  | JNumber _ => "number"
  | JBigInt _ => "bigint"
  | JString _ => "string"
  | JSymbol _ => "symbol"
  | JFunction _ => "function"
  | JArray _ => "object"
  | JObject _ => "object"
  end.

(** [ToBoolean(v)], the test of [if (v)], [v && ...] and [!v]. *)
Definition truthy (v : JsValue) : bool :=
  match v with
  | JUndefined | JNull => false
  | JBoolean b => b
  | JNumber n => negb (bool_decide (n = 0%Qc))
  | JBigInt n => negb (n =? 0)
  | JString s => negb (bool_decide (s = ""))
  | JSymbol _ | JFunction _ | JArray _ | JObject _ => true
  end.

Fixpoint ownProperty (name : string) (properties : list (string * JsValue))
  : option JsValue :=
  match properties with
  | [] => None
  | (k, v) :: rest => if bool_decide (k = name) then Some v else ownProperty name rest
  end.

(** What is thrown. [Error message] is [new Error(message)]; the others
    are raised by the platform. *)
Inductive Exception : Type :=
  | Error (message : string)
  | TypeError
  | SyntaxError
  | DataError
  | OperationError.

(** The names the specification gives to the errors of the code. *)
Definition InvalidRatchetCount : Exception := Error "Ratchet count must be larger than 0".
Definition InvalidMetadataShape : Exception := Error "Metadata must be an object".
Definition MissingContentKey : Exception := Error "content key not found in metadata".
Definition MissingSaltError : Exception := Error "Either salt or hashedSalt must be provided.".
Definition MissingSaltErrorFast : Exception := Error "Either salt or saltHash must be provided.".

(** [v.contentKeyBase64]: reading a property of [undefined] or [null]
    throws, a primitive, a function or an array has no such property. *)
Definition contentKeyBase64 (v : JsValue) : Exception + JsValue :=
  match v with
  | JUndefined | JNull => inl TypeError
  | JObject properties =>
      match ownProperty "contentKeyBase64" properties with
      | Some v => inr v
      | None => inr JUndefined
      end
  | _ => inr JUndefined
  end.

(** ** The external primitives *)

(** The options object handed to [argon2.hash] of argon2-browser; its
    password is a string or a [Uint8Array]. *)
Module argon2.

Inductive ArgonType := Argon2d | Argon2i | Argon2id.

Inductive Pass := PassString (s : string) | PassBytes (b : bytes).

Record Options := {
  pass : Pass;
  salt : bytes;
  type : ArgonType;
  mem : Z;
  time : Z;
  parallelism : Z;
  hashLen : Z
}.
End argon2.

(** [JSON.stringify] returns a string, or [undefined] (for [undefined], a
    function, a symbol), or throws a [TypeError] (a [BigInt], a cycle). *)
Inductive Stringified := JsonText (s : string) | JsonUndefined | JsonTypeError.

Class Providers := {
  (** [(await argon2.hash(options)).hash] *)
  argon2_hash : argon2.Options → bytes;
  (** [crypto.subtle.digest("SHA-256", data)] *)
  digest_SHA256 : bytes → bytes;
  (** [new TextEncoder().encode(s)] and [new TextDecoder().decode(b)] *)
  TextEncoder_encode : string → bytes;
  TextDecoder_decode : bytes → string;
  (** The random source behind [getRandomValues]: the byte at a position
      of the n-th array it fills. *)
  randomByte : nat → nat → Byte.byte;
  (** AES-GCM of [crypto.subtle], key, iv, data.  Decryption is [None]
      when the tag does not verify ([OperationError]). *)
  AES_GCM_encrypt : bytes → bytes → bytes → bytes;
  AES_GCM_decrypt : bytes → bytes → bytes → option bytes;
  JSON_stringify : JsValue → Stringified;
  (** [JSON.parse]; [None] is a [SyntaxError]. *)
  JSON_parse : string → option JsValue;
  (** [base64js.toByteArray] of whatever it is handed, with what it
      throws, and [base64js.fromByteArray]. *)
  base64_toByteArray : JsValue → Exception + bytes;
  base64_fromByteArray : bytes → string;
  (** [edDSA.getPublicKeyAsync], with what it throws on a private key
      it rejects. *)
  ed25519_getPublicKey : bytes → Exception + bytes
}.

(** ** State and effects *)

(** The static [ratchetCache] of [SymmetricEncryption]. *)
Module RatchetCache.

Record t := {
  key : string;
  salt : string;
  hashes : gmap number bytes
}.
End RatchetCache.

(** A record of the calls made to the [Kdf], the way the [vi.fn] doubles
    of the test suite keep it. *)
Inductive KdfCall :=
  | CallHashSalt (salt : string)
  | CallHash (keyphrase : string) (saltHash : bytes)
  | CallFastHash (key : bytes) (saltHash : bytes).

Record World := {
  ratchetCache : option RatchetCache.t;
  kdfCalls : list KdfCall;
  randomDraws : nat
}.

Definition initialWorld : World :=
  {| ratchetCache := None; kdfCalls := []; randomDraws := 0 |}.

(** How a promise settles.  [Pending] is a computation that was cut off
    by the bound on the unfolding of a loop. *)
Inductive Outcome (A : Type) : Type :=
  | Resolved (a : A)
  | Rejected (e : Exception)
  | Pending.
Arguments Resolved {A} a.
Arguments Rejected {A} e.
Arguments Pending {A}.

Definition M (A : Type) : Type := World → Outcome A * World.

Definition ret {A} (a : A) : M A := λ w, (Resolved a, w).
Definition throw {A} (e : Exception) : M A := λ w, (Rejected e, w).
Definition pending {A} : M A := λ w, (Pending, w).
Definition bind {A B} (m : M A) (f : A → M B) : M B :=
  λ w, match m w with
       | (Resolved a, w') => f a w'
       | (Rejected e, w') => (Rejected e, w')
       | (Pending, w') => (Pending, w')
       end.

Notation "x <- m ;; f" := (bind m (λ x, f))
  (at level 100, m at next level, right associativity).
Notation "m ;;; f" := (bind m (λ _, f))
  (at level 100, right associativity).

(** The result of a call into a library that may throw. *)
Definition orThrow {A} (r : Exception + A) : M A :=
  match r with
  | inl e => throw e
  | inr a => ret a
  end.

Definition getCache : M (option RatchetCache.t) := λ w, (Resolved (ratchetCache w), w).
Definition putCache (c : option RatchetCache.t) : M unit :=
  λ w, (Resolved tt, {| ratchetCache := c; kdfCalls := kdfCalls w; randomDraws := randomDraws w |}).
Definition logCall (c : KdfCall) : M unit :=
  λ w, (Resolved tt, {| ratchetCache := ratchetCache w; kdfCalls := kdfCalls w ++ [c];
                        randomDraws := randomDraws w |}).

(** ** [Kdf] (src/kdf.ts) *)

Module Kdf.

Section Kdf.
Context `{Providers}.

(** [hashSalt(salt)]: SHA-256 of the UTF-8 encoding of the salt. *)
Definition hashSalt (salt : string) : M bytes :=
  logCall (CallHashSalt salt) ;;;
  let saltBuffer := TextEncoder_encode salt in
  let saltHash := digest_SHA256 saltBuffer in
  ret saltHash.

(** The two argon2id profiles. *)
Definition strongOptions (keyphrase : string) (saltHash : bytes) : argon2.Options :=
  {| argon2.pass := argon2.PassString keyphrase;
     argon2.salt := saltHash;
     argon2.type := argon2.Argon2id;
     argon2.mem := 19456;
     argon2.time := 2;
     argon2.parallelism := 1;
     argon2.hashLen := 32 |}.

Definition fastOptions (key : bytes) (saltHash : bytes) : argon2.Options :=
  {| argon2.pass := argon2.PassBytes key;
     argon2.salt := saltHash;
     argon2.type := argon2.Argon2id;
     argon2.mem := 10;
     argon2.time := 1;
     argon2.parallelism := 1;
     argon2.hashLen := 32 |}.

(** [hashedSalt ?? (await this.hashSalt(salt!))], after the check that
    one of the two is there. *)
Definition saltHashOf (missing : Exception) (salt : option string)
    (hashedSalt : option bytes) : M bytes :=
  match salt, hashedSalt with
  | None, None => throw missing
  | _, Some h => ret h
  | Some s, None => hashSalt s
  end.

(** [hash(keyphrase, salt?, hashedSalt?)] *)
Definition hash (keyphrase : string) (salt : option string)
    (hashedSalt : option bytes) : M bytes :=
  saltHash <- saltHashOf MissingSaltError salt hashedSalt ;;
  logCall (CallHash keyphrase saltHash) ;;;
  ret (argon2_hash (strongOptions keyphrase saltHash)).

(** [fastHash(key, salt?, hashedSalt?)] *)
Definition fastHash (key : bytes) (salt : option string)
    (hashedSalt : option bytes) : M bytes :=
  saltHash <- saltHashOf MissingSaltErrorFast salt hashedSalt ;;
  logCall (CallFastHash key saltHash) ;;;
  ret (argon2_hash (fastOptions key saltHash)).
End Kdf.
End Kdf.

(** ** [Signature] (src/signature.ts) *)

Module Signature.

Section Signature.
Context `{Providers}.

Record KeyPair := { publicKey : bytes; privateKey : bytes }.

(** [createKeyPairFromKeyPhrase(keyphrase, salt)] *)
Definition createKeyPairFromKeyPhrase (keyphrase salt : string) : M KeyPair :=
  privateKey <- Kdf.hash keyphrase (Some salt) None ;;
  publicKey <- orThrow (ed25519_getPublicKey privateKey) ;;
  ret {| publicKey := publicKey; privateKey := privateKey |}.
End Signature.
End Signature.

(** ** [SymmetricEncryption] (src/symmetric-encryption.ts) *)

Module SymmetricEncryption.

Section SymmetricEncryption.
Context `{Providers}.

(** [this.webcrypto.getRandomValues(new Uint8Array(n))] *)
Definition getRandomValues (n : nat) : M bytes :=
  λ w, (Resolved (map (randomByte (randomDraws w)) (seq 0 n)),
        {| ratchetCache := ratchetCache w; kdfCalls := kdfCalls w;
           randomDraws := S (randomDraws w) |}).

(** [subtle.importKey("raw", key, {name: "AES-GCM", length: 256}, false, usages)]:
    raw AES key data of another size than 128, 192 or 256 bits is a
    [DataError]. *)
Definition importKey (key : bytes) : M bytes :=
  if bool_decide (length key ∈ [16; 24; 32]%nat) then ret key else throw DataError.

(** [encrypt(key, value)]: a new IV, prepended to the encrypted value. *)
Definition encrypt (key value : bytes) : M bytes :=
  iv <- getRandomValues 16 ;;
  aesKey <- importKey key ;;
  let encryptedValue := AES_GCM_encrypt aesKey iv value in
  let encryptedValueWithIv := iv ++ encryptedValue in
  ret encryptedValueWithIv.

(** [decrypt(key, value)] *)
Definition decrypt (key value : bytes) : M bytes :=
  let iv := take 16 value in
  let encryptedValue := drop 16 value in
  aesKey <- importKey key ;;
  match AES_GCM_decrypt aesKey iv encryptedValue with
  | Some decryptedValue => ret decryptedValue
  | None => throw OperationError
  end.

(** [SymmetricEncryption.ratchetCache?.hashes.get(k)] *)
Definition hashesGet (k : number) : M (option bytes) :=
  c <- getCache ;;
  ret (c ≫= λ c, RatchetCache.hashes c !! k).

(** [SymmetricEncryption.ratchetCache!.hashes.set(k, v)] *)
Definition hashesSet (k : number) (v : bytes) : M unit :=
  c <- getCache ;;
  match c with
  | None => throw TypeError
  | Some c =>
      putCache (Some {| RatchetCache.key := RatchetCache.key c;
                        RatchetCache.salt := RatchetCache.salt c;
                        RatchetCache.hashes := <[k := v]> (RatchetCache.hashes c) |})
  end.

(** [initalizeRatchetCache(key, salt)] *)
Definition initalizeRatchetCache (key salt : string) : M unit :=
  c <- getCache ;;
  if bool_decide (RatchetCache.key <$> c ≠ Some key)
     || bool_decide (RatchetCache.salt <$> c ≠ Some salt)
  then putCache (Some {| RatchetCache.key := key;
                         RatchetCache.salt := salt;
                         RatchetCache.hashes := ∅ |})
  else ret tt.

(** [static clearRatchetCache()] *)
Definition clearRatchetCache : M unit := putCache None.

(** The loop [for (let i = 2; i <= ratchetCount; i++)] of [ratchetKey],
    unfolded at most [fuel] times. *)
Fixpoint ratchetLoop (fuel : nat) (i : Z) (ratchetCount : number)
    (saltHash ratchetedKey : bytes) : M bytes :=
  match fuel with
  | O => pending
  | S fuel =>
      if bool_decide (Qc_of_Z i ≤ ratchetCount)%Qc then
        cached <- hashesGet (Qc_of_Z i) ;;
        ratchetedKey <- match cached with
                        | Some k => ret k
                        | None => Kdf.fastHash ratchetedKey None (Some saltHash)
                        end ;;
        hashesSet (Qc_of_Z i) ratchetedKey ;;;
        ratchetLoop fuel (i + 1) ratchetCount saltHash ratchetedKey
      else ret ratchetedKey
  end.

(** [ratchetKey(key, salt, ratchetCount)].  The loop tests its
    condition for i = 2, ..., floor(ratchetCount) + 1 at most, which
    bounds its unfolding. *)
Definition ratchetKey (key salt : string) (ratchetCount : number) : M bytes :=
  if bool_decide (ratchetCount ≤ 0)%Qc then throw InvalidRatchetCount
  else
    initalizeRatchetCache key salt ;;;
    cached <- hashesGet ratchetCount ;;
    match cached with
    | Some k => ret k
    | None =>
        saltHash <- Kdf.hashSalt salt ;;
        first <- hashesGet (Qc_of_Z 1) ;;
        ratchetedKey <- match first with
                        | Some k => ret k
                        | None => Kdf.hash key None (Some saltHash)
                        end ;;
        hashesSet (Qc_of_Z 1) ratchetedKey ;;;
        ratchetLoop (S (Z.to_nat (Qfloor ratchetCount))) 2 ratchetCount
          saltHash ratchetedKey
    end.

(** The check [metadata && typeof metadata !== "object"]. *)
Definition notAnObject (metadata : JsValue) : bool :=
  truthy metadata && bool_decide (typeof metadata ≠ "object").

(** [encryptMetadata(keyphrase, salt, fileNumber, metadata)].
    [encode(undefined)] is the encoding of the empty string. *)
Definition encryptMetadata (keyphrase salt : string) (fileNumber : number)
    (metadata : JsValue) : M bytes :=
  ratchetedKey <- ratchetKey keyphrase salt fileNumber ;;
  if notAnObject metadata then throw InvalidMetadataShape
  else
    match JSON_stringify metadata with
    | JsonTypeError => throw TypeError
    | JsonText metadataString =>
        encrypt ratchetedKey (TextEncoder_encode metadataString)
    | JsonUndefined =>
        encrypt ratchetedKey (TextEncoder_encode "")
    end.

(** [decryptMetadata(keyphrase, salt, fileNumber, encryptedMetadata)] *)
Definition decryptMetadata (keyphrase salt : string) (fileNumber : number)
    (encryptedMetadata : bytes) : M JsValue :=
  ratchetedKey <- ratchetKey keyphrase salt fileNumber ;;
  decryptedMetadata <- decrypt ratchetedKey encryptedMetadata ;;
  let metadataString := TextDecoder_decode decryptedMetadata in
  match JSON_parse metadataString with
  | None => throw SyntaxError
  | Some metadata =>
      if notAnObject metadata then throw InvalidMetadataShape
      else
        contentKey <- orThrow (contentKeyBase64 metadata) ;;
        if negb (truthy contentKey) then throw MissingContentKey
        else ret metadata
  end.

(** [createContentKey()] and [createContentKeyBase64()] *)
Definition createContentKey : M bytes := getRandomValues 32.

Definition createContentKeyBase64 : M string :=
  contentKey <- createContentKey ;;
  ret (base64_fromByteArray contentKey).

(** [encryptFile(metadata, file)] *)
Definition encryptFile (metadata : JsValue) (file : bytes) : M bytes :=
  field <- orThrow (contentKeyBase64 metadata) ;;
  contentKey <- orThrow (base64_toByteArray field) ;;
  encrypt contentKey file.

(** [decryptFile(metadata, encryptedFile)] *)
Definition decryptFile (metadata : JsValue) (encryptedFile : bytes) : M bytes :=
  field <- orThrow (contentKeyBase64 metadata) ;;
  contentKey <- orThrow (base64_toByteArray field) ;;
  decrypt contentKey encryptedFile.
End SymmetricEncryption.
End SymmetricEncryption.

(** ** The hash chain of the specification *)

Section HashChain.
Context `{Providers}.

(** [SaltDigest(salt)]: SHA-256 over the UTF-8 encoding of the salt. *)
Definition SaltDigest (S : string) : bytes :=
  digest_SHA256 (TextEncoder_encode S).

(** The strong and the fast profile, on a hashed salt. *)
Definition strongHash (K : string) (hashedSalt : bytes) : bytes :=
  argon2_hash (Kdf.strongOptions K hashedSalt).

Definition fastHash (k hashedSalt : bytes) : bytes :=
  argon2_hash (Kdf.fastOptions k hashedSalt).

(** The chain k_1 = strongHash(K, hashedSalt),
    k_j = fastHash(k_{j-1}, hashedSalt), read at index N. *)
Definition hashChain (K S : string) (N : Z) : bytes :=
  Nat.iter (Z.to_nat (N - 1))
    (λ k, fastHash k (SaltDigest S)) (strongHash K (SaltDigest S)).

(** The index whose key a ratchet count selects. *)
Definition selectedIndex (ratchetCount : number) : Z :=
  Z.max 1 (Qfloor ratchetCount).
End HashChain.

(** ** The cache as the chain fills it *)

Section ChainVocabulary.
Context `{Providers}.
Variables K S : string.

(** A world whose cache is tagged [(K, S)] and holds [m], after the
    KDF calls [calls] on top of those of [w]. *)
Definition withCache (w : World) (m : gmap number bytes) (calls : list KdfCall) : World :=
  {| ratchetCache := Some {| RatchetCache.key := K; RatchetCache.salt := S;
                             RatchetCache.hashes := m |};
     kdfCalls := kdfCalls w ++ calls;
     randomDraws := randomDraws w |}.

(** [m] with the chain keys of the indices i, ..., i + d - 1. *)
Fixpoint fillFrom (i : Z) (d : nat) (m : gmap number bytes) : gmap number bytes :=
  match d with
  | O => m
  | Datatypes.S d => fillFrom (i + 1) d (<[Qc_of_Z i := hashChain K S i]> m)
  end.

(** The fast hashes that filling i, ..., i + d - 1 costs on [m]. *)
Fixpoint missCalls (i : Z) (d : nat) (m : gmap number bytes) : list KdfCall :=
  match d with
  | O => []
  | Datatypes.S d =>
      match m !! Qc_of_Z i with
      | Some _ => []
      | None => [CallFastHash (hashChain K S (i - 1)) (SaltDigest S)]
      end ++ missCalls (i + 1) d m
  end.

Definition entriesOnChain (m : gmap number bytes) : Prop :=
  ∀ k v, m !! k = Some v → ∃ j : Z, 1 ≤ j ∧ k = Qc_of_Z j ∧ v = hashChain K S j.
End ChainVocabulary.

(** Every cached key is the chain key of its index, for the pair the
    cache is tagged with. *)
Definition worldConsistent `{Providers} (w : World) : Prop :=
  match ratchetCache w with
  | Some c => entriesOnChain (RatchetCache.key c) (RatchetCache.salt c) (RatchetCache.hashes c)
  | None => True
  end.

(** The keys the cache holds for the pair [(K, S)]: none when it is
    tagged with another pair. *)
Definition cachedFor (K S : string) (w : World) : gmap number bytes :=
  match ratchetCache w with
  | Some c =>
      if bool_decide (RatchetCache.key c = K ∧ RatchetCache.salt c = S)
      then RatchetCache.hashes c else ∅
  | None => ∅
  end.

Section MissWorld.
Context `{Providers}.
Variables K S : string.

(** The calls and the cache a miss leaves behind. *)
Definition missWorld (x : number) (w : World) : World :=
  let m := cachedFor K S w in
  let d := Z.to_nat (selectedIndex x - 1) in
  withCache K S w
    (fillFrom K S 2 d (<[Qc_of_Z 1 := hashChain K S 1]> m))
    (CallHashSalt S
     :: match m !! Qc_of_Z 1 with
        | Some _ => []
        | None => [CallHash K (SaltDigest S)]
        end ++ missCalls K S 2 d m).
End MissWorld.

(** ** Reachable worlds *)

(** The calls a client can make. *)
Inductive Operation :=
  | EncryptMetadata (keyphrase salt : string) (fileNumber : number) (metadata : JsValue)
  | DecryptMetadata (keyphrase salt : string) (fileNumber : number) (encryptedMetadata : bytes)
  | CreateContentKey
  | CreateContentKeyBase64
  | EncryptFile (metadata : JsValue) (file : bytes)
  | DecryptFile (metadata : JsValue) (encryptedFile : bytes)
  | ClearRatchetCache
  | CreateKeyPairFromKeyPhrase (keyphrase salt : string).

Section ReachableWorlds.
Context `{Providers}.

(** The world a call leaves behind, however it settles. *)
Definition perform (op : Operation) (w : World) : World :=
  match op with
  | EncryptMetadata k s n m => snd (SymmetricEncryption.encryptMetadata k s n m w)
  | DecryptMetadata k s n b => snd (SymmetricEncryption.decryptMetadata k s n b w)
  | CreateContentKey => snd (SymmetricEncryption.createContentKey w)
  | CreateContentKeyBase64 => snd (SymmetricEncryption.createContentKeyBase64 w)
  | EncryptFile m f => snd (SymmetricEncryption.encryptFile m f w)
  | DecryptFile m b => snd (SymmetricEncryption.decryptFile m b w)
  | ClearRatchetCache => snd (SymmetricEncryption.clearRatchetCache w)
  | CreateKeyPairFromKeyPhrase k s => snd (Signature.createKeyPairFromKeyPhrase k s w)
  end.

(** The worlds that calls made in turn leave: [perform] runs a call
    from its start to its end, so each call has settled before the
    next one is made.  Calls that overlap are the subject of [Task] and
    [attainable] below. *)
Inductive reachable : World → Prop :=
  | reachable_initial : reachable initialWorld
  | reachable_perform op w : reachable w → reachable (perform op w).

(** A computation that keeps a property of the world. *)
Definition preserves {A} (P : World → Prop) (m : M A) : Prop :=
  ∀ w, P w → P (snd (m w)).

(** Properties of the cache alone. *)
Definition onCache (Q : option RatchetCache.t → Prop) (w : World) : Prop :=
  Q (ratchetCache w).
End ReachableWorlds.

(** ** The record of calls and the tag of the cache *)

(** The calls to the strong profile in a record of calls. *)
Fixpoint strongHashCalls (calls : list KdfCall) : nat :=
  match calls with
  | [] => 0
  | CallHash _ _ :: calls => Datatypes.S (strongHashCalls calls)
  | _ :: calls => strongHashCalls calls
  end.

(** The pair the cache is tagged with. *)
Definition cachedPair (w : World) : option (string * string) :=
  (λ c, (RatchetCache.key c, RatchetCache.salt c)) <$> ratchetCache w.

(** ** Metadata and files *)

Section MetadataSteps.
Context `{Providers}.

(** What [encryptMetadata] does with the ratcheted key. *)
Definition sealMetadata (ratchetedKey : bytes) (metadata : JsValue) : M bytes :=
  if SymmetricEncryption.notAnObject metadata then throw InvalidMetadataShape
  else
    match JSON_stringify metadata with
    | JsonTypeError => throw TypeError
    | JsonText metadataString =>
        SymmetricEncryption.encrypt ratchetedKey (TextEncoder_encode metadataString)
    | JsonUndefined =>
        SymmetricEncryption.encrypt ratchetedKey (TextEncoder_encode "")
    end.

(** What [decryptMetadata] does with the decrypted bytes. *)
Definition readMetadata (decryptedMetadata : bytes) : M JsValue :=
  match JSON_parse (TextDecoder_decode decryptedMetadata) with
  | None => throw SyntaxError
  | Some metadata =>
      if SymmetricEncryption.notAnObject metadata then throw InvalidMetadataShape
      else
        contentKey <- orThrow (contentKeyBase64 metadata) ;;
        if negb (truthy contentKey) then throw MissingContentKey
        else ret metadata
  end.
End MetadataSteps.

Section Laws.
Context `{Providers}.

(** The laws of the primitives the round trip rests on: argon2 returns
    [hashLen] bytes, and AES-256-GCM decryption undoes encryption under
    the same key and IV. *)
Definition argon2_length_law : Prop :=
  ∀ o, argon2.hashLen o = 32 → length (argon2_hash o) = 32%nat.

Definition AES_GCM_law : Prop :=
  ∀ k iv p, length k = 32%nat → length iv = 16%nat →
            AES_GCM_decrypt k iv (AES_GCM_encrypt k iv p) = Some p.

(** A value JSON represents: it comes back from its serialisation. *)
Definition jsonRepresentable (m : JsValue) : Prop :=
  ∃ text, JSON_stringify m = JsonText text
          ∧ JSON_parse (TextDecoder_decode (TextEncoder_encode text)) = Some m.


End Laws.

(** ** Test doubles

    Stand-ins for the primitives, in the manner of the [FakeKdf] and of
    the stubbed [getRandomValues] of the test suite: the random source
    yields the IV 0, 1, ..., 15 of the tests. *)

Module TestDoubles.

Definition pad32 (b : bytes) : bytes := take 32 (b ++ replicate 32 Byte.x00).

Definition rotate (b : bytes) : bytes := drop 1 b ++ take 1 b.

Definition fake_argon2 (o : argon2.Options) : bytes :=
  match argon2.pass o with
  | argon2.PassString s => pad32 (String.list_byte_of_string s ++ argon2.salt o)
  | argon2.PassBytes k => pad32 (rotate k)
  end.

(** A keyed seal instead of AES-GCM: the plaintext followed by a tag
    taken from the key and the IV. *)
Definition seal_tag (key iv : bytes) : bytes := take 8 key ++ take 8 iv.

Definition fake_encrypt (key iv data : bytes) : bytes := data ++ seal_tag key iv.

Definition fake_decrypt (key iv data : bytes) : option bytes :=
  let n := (length data - 16)%nat in
  if bool_decide (drop n data = seal_tag key iv ∧ (16 ≤ length data)%nat)
  then Some (take n data) else None.

(** JSON for the values the examples use: null, the number 0, and a
    record with the single property [contentKeyBase64] holding a string
    without characters to escape. *)
Definition quote : string := String (Ascii.ascii_of_nat 34) EmptyString.

Definition recordPrefix : string :=
  "{" +:+ quote +:+ "contentKeyBase64" +:+ quote +:+ ":" +:+ quote.

Definition recordSuffix : string := quote +:+ "}".

Definition fake_stringify (v : JsValue) : Stringified :=
  match v with
  | JUndefined | JFunction _ | JSymbol _ => JsonUndefined
  | JBigInt _ => JsonTypeError
  | JNull => JsonText "null"
  | JNumber n => if bool_decide (n = 0%Qc) then JsonText "0" else JsonText "1"
  | JObject [(name, JString s)] =>
      if bool_decide (name = "contentKeyBase64")
      then JsonText (recordPrefix +:+ s +:+ recordSuffix)
      else JsonText "{}"
  | _ => JsonText "{}"
  end.

Definition fake_parse (text : string) : option JsValue :=
  if bool_decide (text = "null") then Some JNull
  else if bool_decide (text = "0") then Some (JNumber 0%Qc)
  else if bool_decide (text = "{}") then Some (JObject [])
  else
    let n := (String.length text - String.length recordPrefix
              - String.length recordSuffix)%nat in
    let s := String.substring (String.length recordPrefix) n text in
    if bool_decide (text = recordPrefix +:+ s +:+ recordSuffix)
    then Some (JObject [("contentKeyBase64", JString s)])
    else None.

(** Base64 stand-in with the lengths of base64: every four characters
    give three bytes (here the first three characters themselves), less
    one byte for each padding character. *)
Fixpoint threeOfFour (b : bytes) : bytes :=
  match b with
  | x :: y :: z :: _ :: rest => x :: y :: z :: threeOfFour rest
  | _ => []
  end.

Definition padding (b : bytes) : nat :=
  length (filter (λ c, c = "="%byte) b).

Definition fake_toByteArray (v : JsValue) : Exception + bytes :=
  match v with
  | JString s =>
      let b := String.list_byte_of_string s in
      if bool_decide (length b `mod` 4 = 0)%nat
      then inr (take (length (threeOfFour b) - padding b) (threeOfFour b))
      else inl (Error "Invalid string. Length must be a multiple of 4")
  | _ => inl TypeError
  end.

Definition fake_getPublicKey (privateKey : bytes) : Exception + bytes :=
  if bool_decide (length privateKey = 32%nat)
  then inr (reverse privateKey)
  else inl (Error "private key of length 32 expected").

#[export] Instance providers : Providers := {|
  argon2_hash := fake_argon2;
  digest_SHA256 := pad32;
  TextEncoder_encode := String.list_byte_of_string;
  TextDecoder_decode := String.string_of_list_byte;
  randomByte := λ _ i, octet (N.of_nat i);
  AES_GCM_encrypt := fake_encrypt;
  AES_GCM_decrypt := fake_decrypt;
  JSON_stringify := fake_stringify;
  JSON_parse := fake_parse;
  base64_toByteArray := fake_toByteArray;
  base64_fromByteArray := String.string_of_list_byte;
  ed25519_getPublicKey := fake_getPublicKey
|}.
End TestDoubles.

(** The metadata of the test suite, reduced to its content key. *)
Definition sampleMetadata : JsValue :=
  JObject [("contentKeyBase64", JString "MzItYnl0ZS1jb250ZW50LWtleS1iYXNlNjQtZW5jb2Q=")].

(** The blobs [encryptMetadata] makes, in the initial world and with the
    count 2, of a record with an empty content key and of a record whose
    content key is the base64 of three bytes. *)
Definition emptyKeyBlob : bytes :=
  Eval vm_compute in
    match fst (SymmetricEncryption.encryptMetadata (H := TestDoubles.providers)
                 "test123" "my-clipboard" (Qc_of_Z 2)
                 (JObject [("contentKeyBase64", JString "")]) initialWorld) with
    | Resolved blob => blob
    | _ => []
    end.

Definition shortKeyBlob : bytes :=
  Eval vm_compute in
    match fst (SymmetricEncryption.encryptMetadata (H := TestDoubles.providers)
                 "test123" "my-clipboard" (Qc_of_Z 2)
                 (JObject [("contentKeyBase64", JString "AAAA")]) initialWorld) with
    | Resolved blob => blob
    | _ => []
    end.

(** ** Signing (src/signature.ts) *)

(** The two remaining primitives of @noble/ed25519, with what they
    throw: [signAsync(message, privateKey)] and
    [verifyAsync(signature, message, publicKey)]. *)
Class Signer := {
  ed25519_sign : bytes → bytes → Exception + bytes;
  ed25519_verify : bytes → bytes → bytes → Exception + bool
}.

Module Signing.

Section Signing.
Context `{Signer}.

(** [sign(message, privateKey)] *)
Definition sign (message privateKey : bytes) : M bytes :=
  orThrow (ed25519_sign message privateKey).

(** [verify(message, signature, publicKey)] *)
Definition verify (message signature publicKey : bytes) : M bool :=
  orThrow (ed25519_verify signature message publicKey).
End Signing.
End Signing.

(** ** The shape of the cache *)

(** The cache holds the indices 1, ..., n and no other key. *)
Definition cachedPrefix (m : gmap number bytes) (n : Z) : Prop :=
  0 ≤ n ∧ ∀ k : number, is_Some (m !! k) ↔ ∃ j : Z, 1 ≤ j ≤ n ∧ k = Qc_of_Z j.

Section CallRecords.
Context `{Providers}.

(** The fast hashes of the steps [first], ..., [last] of the chain. *)
Definition fastCalls (K S : string) (first last : Z) : list KdfCall :=
  (λ j, CallFastHash (hashChain K S (j - 1)) (SaltDigest S))
    <$> seqZ first (last + 1 - first).

(** The calls that compute the chain up to N from nothing. *)
Definition freshCalls (K S : string) (N : Z) : list KdfCall :=
  CallHashSalt S :: CallHash K (SaltDigest S) :: fastCalls K S 2 N.

(** The state of the cache that calls made in turn leave: every entry
    is a chain key of the pair of the cache, and the indices form a
    prefix. *)
Definition cacheShape (c : option RatchetCache.t) : Prop :=
  match c with
  | Some c =>
      entriesOnChain (RatchetCache.key c) (RatchetCache.salt c) (RatchetCache.hashes c)
      ∧ ∃ n, cachedPrefix (RatchetCache.hashes c) n
  | None => True
  end.

(** The laws of Ed25519 and of base64 that the compositions rest on. *)
Definition base64_law : Prop :=
  ∀ b, length b = 32%nat →
       base64_toByteArray (JString (base64_fromByteArray b)) = inr b.

Definition Ed25519_law `{Signer} : Prop :=
  ∀ message privateKey publicKey,
    ed25519_getPublicKey privateKey = inr publicKey →
    ∃ signature, ed25519_sign message privateKey = inr signature
                 ∧ ed25519_verify signature message publicKey = inr true.
End CallRecords.

(** ** More test doubles *)

Module MoreDoubles.

(** Base64 stand-in that is its own inverse: a string is the text of
    its bytes. *)
Definition plain_toByteArray (v : JsValue) : Exception + bytes :=
  match v with
  | JString s => inr (String.list_byte_of_string s)
  | _ => inl TypeError
  end.

#[export] Instance providers : Providers := {|
  argon2_hash := TestDoubles.fake_argon2;
  digest_SHA256 := TestDoubles.pad32;
  TextEncoder_encode := String.list_byte_of_string;
  TextDecoder_decode := String.string_of_list_byte;
  randomByte := λ _ i, octet (N.of_nat i);
  AES_GCM_encrypt := TestDoubles.fake_encrypt;
  AES_GCM_decrypt := TestDoubles.fake_decrypt;
  JSON_stringify := TestDoubles.fake_stringify;
  JSON_parse := TestDoubles.fake_parse;
  base64_toByteArray := plain_toByteArray;
  base64_fromByteArray := String.string_of_list_byte;
  ed25519_getPublicKey := TestDoubles.fake_getPublicKey
|}.

(** A signature stand-in: the public key followed by the message. *)
Definition fake_sign (message privateKey : bytes) : Exception + bytes :=
  match TestDoubles.fake_getPublicKey privateKey with
  | inr publicKey => inr (publicKey ++ message)
  | inl e => inl e
  end.

Definition fake_verify (signature message publicKey : bytes) : Exception + bool :=
  inr (bool_decide (signature = publicKey ++ message)).

#[export] Instance signer : Signer := {|
  ed25519_sign := fake_sign;
  ed25519_verify := fake_verify
|}.
End MoreDoubles.

(** The blob [encryptMetadata] makes of [null], in the initial world and
    with the count 2. *)
Definition nullBlob : bytes :=
  Eval vm_compute in
    match fst (SymmetricEncryption.encryptMetadata (H := TestDoubles.providers)
                 "test123" "my-clipboard" (Qc_of_Z 2) JNull initialWorld) with
    | Resolved blob => blob
    | _ => []
    end.

(** ** Calls that overlap

    The methods of [SymmetricEncryption] are [async]: a call runs until
    its first [await], gives up control there, and goes on when it is
    resumed, up to its next [await].  Other calls run in between, and
    they share the static [ratchetCache].  [M] above describes a call
    that runs from its start to its end with nothing in between; the
    definitions below mark the [await]s of the source, so that two
    calls can take turns. *)

(** A call that was started: it has settled, or it waits at an [await]
    and [resume] runs it up to the next one. *)
Inductive Task (A : Type) : Type :=
  | Settled (o : Outcome A)
  | Awaiting (resume : World → Task A * World).
Arguments Settled {A} o.
Arguments Awaiting {A} resume.

(** An [async] function: what a call does before it first gives up
    control. *)
Definition Async (A : Type) : Type := World → Task A * World.

(** A task that nothing interrupts. *)
Fixpoint finish {A} (t : Task A) (w : World) : Outcome A * World :=
  match t with
  | Settled o => (o, w)
  | Awaiting resume => let (t', w') := resume w in finish t' w'
  end.

(** The number of times a task is resumed until it has settled. *)
Fixpoint ticks {A} (t : Task A) (w : World) : nat :=
  match t with
  | Settled _ => 0%nat
  | Awaiting resume => let (t', w') := resume w in Datatypes.S (ticks t' w')
  end.

(** A call from its start to its end with nothing in between. *)
Definition alone {A} (call : Async A) : M A :=
  λ w, let (t, w') := call w in finish t w'.

(** The caller of [await call(...)]: it waits while the task of the
    call runs, and goes on with [k] one turn after that has settled. *)
Fixpoint chain {A B} (t : Task A) (k : A → Async B) : Task B :=
  match t with
  | Settled (Resolved a) => Awaiting (k a)
  | Settled (Rejected e) => Awaiting (λ w, (Settled (Rejected e), w))
  | Settled Pending => Awaiting (λ w, (Settled Pending, w))
  | Awaiting resume => Awaiting (λ w, let (t', w') := resume w in (chain t' k, w'))
  end.

Module Async.

Section Async.
Context `{Providers}.

(** [return] and [throw]. *)
Definition settle {A} (o : Outcome A) : Async A := λ w, (Settled o, w).

(** Statements that run without giving up control, then [k]. *)
Definition run {A B} (m : M A) (k : A → Async B) : Async B :=
  λ w, match m w with
       | (Resolved a, w') => k a w'
       | (Rejected e, w') => (Settled (Rejected e), w')
       | (Pending, w') => (Settled Pending, w')
       end.

(** [await] of a call into the [Kdf] or a library: the call is made,
    and recorded, where it stands; its value is there when the caller
    is resumed.  What these calls do while the caller waits touches
    neither the cache nor the random source. *)
Definition await {A B} (m : M A) (k : A → Async B) : Async B :=
  λ w, match m w with
       | (Resolved a, w') => (Awaiting (k a), w')
       | (Rejected e, w') => (Awaiting (settle (Rejected e)), w')
       | (Pending, w') => (Awaiting (settle Pending), w')
       end.

(** [await] of a call of an [async] method of this class: the method
    runs up to its first [await] at once. *)
Definition awaitCall {A B} (call : Async A) (k : A → Async B) : Async B :=
  λ w, let (t, w') := call w in (chain t k, w').

(** A method that is not [async]. *)
Definition sync {A} (m : M A) : Async A := run m (λ a, settle (Resolved a)).

(** [encrypt(key, value)] *)
Definition encrypt (key value : bytes) : Async bytes :=
  run (SymmetricEncryption.getRandomValues 16) (λ iv,
  await (SymmetricEncryption.importKey key) (λ aesKey,
  await (ret (AES_GCM_encrypt aesKey iv value)) (λ encryptedValue,
  let encryptedValueWithIv := iv ++ encryptedValue in
  settle (Resolved encryptedValueWithIv)))).

(** [decrypt(key, value)] *)
Definition decrypt (key value : bytes) : Async bytes :=
  let iv := take 16 value in
  let encryptedValue := drop 16 value in
  await (SymmetricEncryption.importKey key) (λ aesKey,
  await (match AES_GCM_decrypt aesKey iv encryptedValue with
         | Some decryptedValue => ret decryptedValue
         | None => throw OperationError
         end) (λ decryptedValue,
  settle (Resolved decryptedValue))).

(** The loop of [ratchetKey]: [hashes.get(i) ?? (await fastHash(...))]
    gives up control only when the index is not cached; the write
    [hashes.set(i, ratchetedKey)] comes after the caller is resumed. *)
Fixpoint ratchetLoop (fuel : nat) (i : Z) (ratchetCount : number)
    (saltHash ratchetedKey : bytes) : Async bytes :=
  match fuel with
  | O => settle Pending
  | S fuel =>
      if bool_decide (Qc_of_Z i ≤ ratchetCount)%Qc then
        run (SymmetricEncryption.hashesGet (Qc_of_Z i)) (λ cached,
        let next ratchetedKey :=
          run (SymmetricEncryption.hashesSet (Qc_of_Z i) ratchetedKey) (λ _,
          ratchetLoop fuel (i + 1) ratchetCount saltHash ratchetedKey) in
        match cached with
        | Some k => next k
        | None => await (Kdf.fastHash ratchetedKey None (Some saltHash)) next
        end)
      else settle (Resolved ratchetedKey)
  end.

(** [ratchetKey(key, salt, ratchetCount)]: the check of the count,
    [initalizeRatchetCache] and the look-up of the count run at once;
    the first [await] is that of [hashSalt], the second that of
    [hash], when the index 1 is not cached. *)
Definition ratchetKey (key salt : string) (ratchetCount : number) : Async bytes :=
  if bool_decide (ratchetCount ≤ 0)%Qc then settle (Rejected InvalidRatchetCount)
  else
    run (SymmetricEncryption.initalizeRatchetCache key salt) (λ _,
    run (SymmetricEncryption.hashesGet ratchetCount) (λ cached,
    match cached with
    | Some k => settle (Resolved k)
    | None =>
        await (Kdf.hashSalt salt) (λ saltHash,
        run (SymmetricEncryption.hashesGet (Qc_of_Z 1)) (λ first,
        let next ratchetedKey :=
          run (SymmetricEncryption.hashesSet (Qc_of_Z 1) ratchetedKey) (λ _,
          ratchetLoop (S (Z.to_nat (Qfloor ratchetCount))) 2 ratchetCount
            saltHash ratchetedKey) in
        match first with
        | Some k => next k
        | None => await (Kdf.hash key None (Some saltHash)) next
        end))
    end)).

(** [encryptMetadata(keyphrase, salt, fileNumber, metadata)] *)
Definition encryptMetadata (keyphrase salt : string) (fileNumber : number)
    (metadata : JsValue) : Async bytes :=
  awaitCall (ratchetKey keyphrase salt fileNumber) (λ ratchetedKey,
  if SymmetricEncryption.notAnObject metadata then settle (Rejected InvalidMetadataShape)
  else
    match JSON_stringify metadata with
    | JsonTypeError => settle (Rejected TypeError)
    | JsonText metadataString =>
        awaitCall (encrypt ratchetedKey (TextEncoder_encode metadataString))
          (λ encryptedMetadata, settle (Resolved encryptedMetadata))
    | JsonUndefined =>
        awaitCall (encrypt ratchetedKey (TextEncoder_encode ""))
          (λ encryptedMetadata, settle (Resolved encryptedMetadata))
    end).

(** [decryptMetadata(keyphrase, salt, fileNumber, encryptedMetadata)] *)
Definition decryptMetadata (keyphrase salt : string) (fileNumber : number)
    (encryptedMetadata : bytes) : Async JsValue :=
  awaitCall (ratchetKey keyphrase salt fileNumber) (λ ratchetedKey,
  awaitCall (decrypt ratchetedKey encryptedMetadata) (λ decryptedMetadata,
  let metadataString := TextDecoder_decode decryptedMetadata in
  match JSON_parse metadataString with
  | None => settle (Rejected SyntaxError)
  | Some metadata =>
      if SymmetricEncryption.notAnObject metadata then settle (Rejected InvalidMetadataShape)
      else
        run (orThrow (contentKeyBase64 metadata)) (λ contentKey,
        if negb (truthy contentKey) then settle (Rejected MissingContentKey)
        else settle (Resolved metadata))
  end)).

(** [encryptFile(metadata, file)] and [decryptFile(metadata, encryptedFile)] *)
Definition encryptFile (metadata : JsValue) (file : bytes) : Async bytes :=
  run (orThrow (contentKeyBase64 metadata)) (λ field,
  run (orThrow (base64_toByteArray field)) (λ contentKey,
  awaitCall (encrypt contentKey file) (λ encryptedFile,
  settle (Resolved encryptedFile)))).

Definition decryptFile (metadata : JsValue) (encryptedFile : bytes) : Async bytes :=
  run (orThrow (contentKeyBase64 metadata)) (λ field,
  run (orThrow (base64_toByteArray field)) (λ contentKey,
  awaitCall (decrypt contentKey encryptedFile) (λ decryptedFile,
  settle (Resolved decryptedFile)))).

(** [Signature.createKeyPairFromKeyPhrase(keyphrase, salt)] *)
Definition createKeyPairFromKeyPhrase (keyphrase salt : string)
    : Async Signature.KeyPair :=
  await (Kdf.hash keyphrase (Some salt) None) (λ privateKey,
  await (orThrow (ed25519_getPublicKey privateKey)) (λ publicKey,
  settle (Resolved {| Signature.publicKey := publicKey;
                      Signature.privateKey := privateKey |}))).
End Async.
End Async.

(** *** A client and its calls *)

(** A call that a client has made, whatever it returns. *)
Inductive Job : Type :=
  | JobOf (A : Type) (task : Task A).
Arguments JobOf {A} task.

(** The world and the calls made so far, in the order they were made. *)
Record Client := { world : World; jobs : list Job }.

Definition initialClient : Client := {| world := initialWorld; jobs := [] |}.

(** What happens next: the client makes a call, which runs up to its
    first [await], or the call number [i] is resumed and runs up to its
    next [await]. *)
Inductive Move :=
  | Call (op : Operation)
  | Resume (i : nat).

Section Clients.
Context `{Providers}.

Definition job {A} (r : Task A * World) : Job * World := (JobOf (fst r), snd r).

Definition launch (op : Operation) (w : World) : Job * World :=
  match op with
  | EncryptMetadata k s n m => job (Async.encryptMetadata k s n m w)
  | DecryptMetadata k s n b => job (Async.decryptMetadata k s n b w)
  | CreateContentKey => job (Async.sync SymmetricEncryption.createContentKey w)
  | CreateContentKeyBase64 => job (Async.sync SymmetricEncryption.createContentKeyBase64 w)
  | EncryptFile m f => job (Async.encryptFile m f w)
  | DecryptFile m b => job (Async.decryptFile m b w)
  | ClearRatchetCache => job (Async.sync SymmetricEncryption.clearRatchetCache w)
  | CreateKeyPairFromKeyPhrase k s => job (Async.createKeyPairFromKeyPhrase k s w)
  end.

Definition resume (j : Job) (w : World) : Job * World :=
  match j with
  | JobOf (Settled o) => (j, w)
  | JobOf (Awaiting next) => job (next w)
  end.

Definition move (c : Client) (m : Move) : Client :=
  match m with
  | Call op =>
      let (j, w) := launch op (world c) in
      {| world := w; jobs := jobs c ++ [j] |}
  | Resume i =>
      match jobs c !! i with
      | Some j =>
          let (j', w) := resume j (world c) in
          {| world := w; jobs := <[i := j']> (jobs c) |}
      | None => c
      end
  end.

Definition play (moves : list Move) (c : Client) : Client := foldl move c moves.

Definition settled (j : Job) : bool :=
  match j with
  | JobOf (Settled _) => true
  | JobOf (Awaiting _) => false
  end.

(** The world a job leaves when nothing interrupts it. *)
Definition finishJob (j : Job) (w : World) : World :=
  match j with
  | JobOf t => snd (finish t w)
  end.

(** The worlds a client can bring about, calls that overlap included. *)
Definition attainable (w : World) : Prop :=
  ∃ moves, w = world (play moves initialClient).

(** The world after the calls [ops], made in turn: each call has
    settled before the next one is made. *)
Definition inTurn (ops : list Operation) : World :=
  foldl (λ w op, perform op w) initialWorld ops.
End Clients.

(** Two calls that overlap, as in
    [Promise.all([encryptMetadata("test123", "my-clipboard", 3, m),
                  encryptMetadata("other", "space", 1, m)])]:
    each call is resumed when the promise it waits for has resolved,
    the two taking turns. *)
Definition overlappingCalls : list Move :=
  [ Call (EncryptMetadata "test123" "my-clipboard" (Qc_of_Z 3) sampleMetadata);
    Call (EncryptMetadata "other" "space" (Qc_of_Z 1) sampleMetadata);
    Resume 0; Resume 1; Resume 0; Resume 1; Resume 0; Resume 1;
    Resume 0; Resume 1; Resume 0; Resume 1; Resume 0; Resume 1;
    Resume 0; Resume 0 ].

(** The world these calls leave, on the test doubles. *)
Definition overlappedWorld : World :=
  world (play (H := TestDoubles.providers) overlappingCalls initialClient).

(** The blob that [encryptMetadata("other", "space", 2, m)] returns in
    that world. *)
Definition overlappedBlob : bytes :=
  Eval vm_compute in
    match fst (SymmetricEncryption.encryptMetadata (H := TestDoubles.providers)
                 "other" "space" (Qc_of_Z 2) sampleMetadata overlappedWorld) with
    | Resolved blob => blob
    | _ => []
    end.

(** * Lemmas and theorems *)

(** ** The laws the test doubles obey *)

Module TestDoublesLaws.
Import TestDoubles.

Lemma argon2_length_law o : length (fake_argon2 o) = 32%nat.
Proof.
  unfold fake_argon2, pad32.
  destruct (argon2.pass o); rewrite length_take, length_app, length_replicate; lia.
Qed.

Lemma AES_GCM_law key iv data :
  length key = 32%nat → length iv = 16%nat →
  fake_decrypt key iv (fake_encrypt key iv data) = Some data.
Proof.
  intros Hkey Hiv. unfold fake_decrypt, fake_encrypt.
  assert (length (seal_tag key iv) = 16%nat) as Htag
    by (unfold seal_tag; rewrite length_app, !length_take; lia).
  rewrite length_app, Htag.
  replace (length data + 16 - 16)%nat with (length data) by lia.
  rewrite drop_app_length, take_app_length.
  by rewrite bool_decide_eq_true_2 by (split; [done|lia]).
Qed.
End TestDoublesLaws.

(** ** Reasoning about the ratchet *)

Lemma Qc_of_Z_le_floor (i : Z) (x : number) :
  (Qc_of_Z i ≤ x)%Qc ↔ i ≤ Qfloor x.
Proof.
  unfold Qcle. cbn [this Qc_of_Z]. split; intros Hle.
  - apply Z.lt_succ_r. rewrite Zlt_Qlt.
    eapply Qle_lt_trans; [exact Hle|]. apply Qlt_floor.
  - eapply Qle_trans; [|apply Qfloor_le]. by rewrite <- Zle_Qle.
Qed.

Lemma Qfloor_Qc_of_Z (j : Z) : Qfloor (Qc_of_Z j) = j.
Proof. cbn [this Qc_of_Z]. apply Qfloor_Z. Qed.

Lemma bind_resolved {A B} (m : M A) (f : A → M B) w a w' :
  m w = (Resolved a, w') → bind m f w = f a w'.
Proof. unfold bind. by intros ->. Qed.

Lemma bind_rejected {A B} (m : M A) (f : A → M B) w e w' :
  m w = (Rejected e, w') → bind m f w = (Rejected e, w').
Proof. unfold bind. by intros ->. Qed.

Section Chain.
Context `{Providers}.
Variables K S : string.

Lemma hashChain_1 : hashChain K S 1 = strongHash K (SaltDigest S).
Proof. reflexivity. Qed.

Lemma hashChain_step (j : Z) :
  2 ≤ j → hashChain K S j = fastHash (hashChain K S (j - 1)) (SaltDigest S).
Proof.
  intros Hj. unfold hashChain.
  replace (Z.to_nat (j - 1)) with (Datatypes.S (Z.to_nat (j - 1 - 1))) by lia.
  reflexivity.
Qed.

Lemma entriesOnChain_empty : entriesOnChain K S ∅.
Proof. intros k v. by rewrite lookup_empty. Qed.

Lemma entriesOnChain_insert m j :
  1 ≤ j → entriesOnChain K S m → entriesOnChain K S (<[Qc_of_Z j := hashChain K S j]> m).
Proof.
  intros Hj Hm k v. destruct (decide (Qc_of_Z j = k)) as [<-|Hne].
  - rewrite lookup_insert_eq. intros [= <-]. eauto.
  - rewrite lookup_insert_ne by done. apply Hm.
Qed.

Lemma entriesOnChain_fillFrom d : ∀ i m,
  1 ≤ i → entriesOnChain K S m → entriesOnChain K S (fillFrom K S i d m).
Proof.
  induction d as [|d IH]; intros i m Hi Hm; cbn [fillFrom]; [done|].
  apply IH; [lia|]. by apply entriesOnChain_insert.
Qed.

Lemma entriesOnChain_lookup m (j : Z) v :
  entriesOnChain K S m → m !! Qc_of_Z j = Some v → 1 ≤ j ∧ v = hashChain K S j.
Proof.
  intros Hm Hv. destruct (Hm _ _ Hv) as (j' & Hj' & Heq & ->).
  apply Z2Qc_inj in Heq. by subst.
Qed.

Lemma lookup_fillFrom d : ∀ i m (k : number),
  fillFrom K S i d m !! k =
    match fillFrom K S i d ∅ !! k with
    | Some v => Some v
    | None => m !! k
    end.
Proof.
  induction d as [|d IH]; intros i m k; cbn [fillFrom].
  - by rewrite lookup_empty.
  - rewrite (IH _ (<[_ := _]> m)), (IH _ (<[_ := _]> ∅)).
    destruct (fillFrom K S (i + 1) d ∅ !! k); [done|].
    destruct (decide (Qc_of_Z i = k)) as [<-|Hne].
    + by rewrite !lookup_insert_eq.
    + by rewrite !lookup_insert_ne, lookup_empty by done.
Qed.

Lemma lookup_fillFrom_empty d : ∀ i (j : Z),
  fillFrom K S i d ∅ !! Qc_of_Z j =
    if bool_decide (i ≤ j < i + Z.of_nat d) then Some (hashChain K S j) else None.
Proof.
  induction d as [|d IH]; intros i j; cbn [fillFrom].
  - rewrite lookup_empty. by rewrite bool_decide_eq_false_2 by lia.
  - rewrite lookup_fillFrom, IH.
    destruct (decide (i + 1 ≤ j < i + 1 + Z.of_nat d)) as [Hin|Hout].
    + rewrite !bool_decide_eq_true_2 by lia. done.
    + rewrite (bool_decide_eq_false_2 _ Hout).
      destruct (decide (i = j)) as [->|Hne].
      * rewrite lookup_insert_eq. by rewrite bool_decide_eq_true_2 by lia.
      * rewrite lookup_insert_ne, lookup_empty by (intros ?%Z2Qc_inj; done).
        by rewrite bool_decide_eq_false_2 by lia.
Qed.

Lemma missCalls_insert d : ∀ i m (j : Z) v,
  j < i → missCalls K S i d (<[Qc_of_Z j := v]> m) = missCalls K S i d m.
Proof.
  induction d as [|d IH]; intros i m j v Hlt; cbn [missCalls]; [done|].
  rewrite lookup_insert_ne by (intros ?%Z2Qc_inj; lia).
  by rewrite IH by lia.
Qed.

Lemma missCalls_app d1 : ∀ d2 i m,
  missCalls K S i (d1 + d2) m = missCalls K S i d1 m ++ missCalls K S (i + Z.of_nat d1) d2 m.
Proof.
  induction d1 as [|d1 IH]; intros d2 i m; cbn [missCalls Nat.add app].
  - by rewrite Z.add_0_r.
  - rewrite IH, <- app_assoc. do 3 f_equal. lia.
Qed.

Lemma missCalls_cached d : ∀ i m,
  (∀ j : Z, i ≤ j < i + Z.of_nat d → is_Some (m !! Qc_of_Z j)) →
  missCalls K S i d m = [].
Proof.
  induction d as [|d IH]; intros i m Hm; cbn [missCalls]; [done|].
  destruct (Hm i) as [v ->]; [lia|]. cbn [app].
  apply IH. intros j Hj. apply Hm. lia.
Qed.

Lemma missCalls_missing d : ∀ i m,
  (∀ j : Z, i ≤ j < i + Z.of_nat d → m !! Qc_of_Z j = None) →
  missCalls K S i d m =
    (λ j, CallFastHash (hashChain K S (j - 1)) (SaltDigest S)) <$> seqZ i (Z.of_nat d).
Proof.
  induction d as [|d IH]; intros i m Hm; cbn [missCalls]; [done|].
  rewrite (Hm i) by lia.
  rewrite Nat2Z.inj_succ, seqZ_cons by lia. cbn [fmap list_fmap app].
  rewrite Z.pred_succ. f_equal. unfold Z.succ.
  apply IH. intros j Hj. apply Hm. lia.
Qed.
End Chain.

Section RatchetSteps.
Context `{Providers}.
Variables K S : string.

Lemma withCache_calls w m calls calls' :
  withCache K S (withCache K S w m calls) m calls' = withCache K S w m (calls ++ calls').
Proof. unfold withCache. cbn. by rewrite app_assoc. Qed.

Lemma hashesGet_withCache w m calls k :
  SymmetricEncryption.hashesGet k (withCache K S w m calls)
  = (Resolved (m !! k), withCache K S w m calls).
Proof. reflexivity. Qed.

Lemma hashesSet_withCache w m calls k v :
  SymmetricEncryption.hashesSet k v (withCache K S w m calls)
  = (Resolved tt, withCache K S w (<[k := v]> m) calls).
Proof. reflexivity. Qed.

Lemma fastHash_withCache w m calls k h :
  Kdf.fastHash k None (Some h) (withCache K S w m calls)
  = (Resolved (fastHash k h), withCache K S w m (calls ++ [CallFastHash k h])).
Proof. unfold withCache. cbn. by rewrite app_assoc. Qed.

Lemma hash_withCache w m calls k h :
  Kdf.hash k None (Some h) (withCache K S w m calls)
  = (Resolved (strongHash k h), withCache K S w m (calls ++ [CallHash k h])).
Proof. unfold withCache. cbn. by rewrite app_assoc. Qed.

Lemma hashSalt_withCache w m calls s :
  Kdf.hashSalt s (withCache K S w m calls)
  = (Resolved (SaltDigest s), withCache K S w m (calls ++ [CallHashSalt s])).
Proof. unfold withCache. cbn. by rewrite app_assoc. Qed.

(** The loop, entered at [i] with the key of index [i - 1], fills the
    indices i, ..., floor(x) and returns the key of the last one; [d]
    counts them. *)
Lemma ratchetLoop_spec (x : number) (d : nat) : ∀ fuel i m calls w,
  2 ≤ i →
  entriesOnChain K S m →
  Z.of_nat d = Z.max 0 (Qfloor x + 1 - i) →
  (d < fuel)%nat →
  SymmetricEncryption.ratchetLoop fuel i x (SaltDigest S) (hashChain K S (i - 1))
    (withCache K S w m calls)
  = (Resolved (hashChain K S (i - 1 + Z.of_nat d)),
     withCache K S w (fillFrom K S i d m) (calls ++ missCalls K S i d m)).
Proof.
  induction d as [|d IH]; intros fuel i m calls w Hi Hm Hd Hfuel;
    (destruct fuel as [|fuel]; [lia|]); cbn [SymmetricEncryption.ratchetLoop].
  - rewrite bool_decide_eq_false_2 by (rewrite Qc_of_Z_le_floor; lia).
    cbn [fillFrom missCalls]. by rewrite Z.add_0_r, app_nil_r.
  - rewrite bool_decide_eq_true_2 by (rewrite Qc_of_Z_le_floor; lia).
    rewrite (bind_resolved _ _ _ _ _ (hashesGet_withCache _ _ _ _)).
    cbn [fillFrom missCalls].
    replace (i - 1 + Z.of_nat (Datatypes.S d)) with (i + Z.of_nat d) by lia.
    pose proof (λ calls', IH fuel (i + 1) (<[Qc_of_Z i := hashChain K S i]> m) calls' w)
      as IH'.
    replace (i + 1 - 1) with i in IH' by lia.
    rewrite missCalls_insert in IH' by lia.
    assert (entriesOnChain K S (<[Qc_of_Z i := hashChain K S i]> m)) as Hm'
      by (apply entriesOnChain_insert; [lia|done]).
    destruct (m !! Qc_of_Z i) as [v|] eqn:Hlook.
    + destruct (entriesOnChain_lookup K S _ _ _ Hm Hlook) as [_ ->].
      rewrite (bind_resolved _ _ _ (hashChain K S i) (withCache K S w m calls))
        by reflexivity.
      rewrite (bind_resolved _ _ _ _ _ (hashesSet_withCache _ _ _ _ _)).
      rewrite IH' by (done || lia). done.
    + rewrite (bind_resolved _ _ _ _ _ (fastHash_withCache _ _ _ _ _)).
      rewrite <- hashChain_step by lia.
      rewrite (bind_resolved _ _ _ _ _ (hashesSet_withCache _ _ _ _ _)).
      rewrite IH' by (done || lia). by rewrite <- app_assoc.
Qed.
End RatchetSteps.

Section RatchetKey.
Context `{Providers}.
Variables K S : string.

Lemma initalizeRatchetCache_spec w :
  SymmetricEncryption.initalizeRatchetCache K S w
  = (Resolved tt, withCache K S w (cachedFor K S w) []).
Proof.
  destruct w as [[[k s m]|] calls draws];
    unfold SymmetricEncryption.initalizeRatchetCache, cachedFor, withCache, bind,
      getCache, putCache, ret; cbn; rewrite app_nil_r; [|done].
  destruct (decide (k = K)) as [->|Hk], (decide (s = S)) as [->|Hs].
  - rewrite !bool_decide_eq_false_2 by intuition congruence.
    by rewrite bool_decide_eq_true_2 by done.
  - rewrite (bool_decide_eq_true_2 (Some s ≠ Some S)) by congruence.
    rewrite orb_true_r. by rewrite bool_decide_eq_false_2 by intuition congruence.
  - rewrite (bool_decide_eq_true_2 (Some k ≠ Some K)) by congruence.
    cbn. by rewrite bool_decide_eq_false_2 by intuition congruence.
  - rewrite (bool_decide_eq_true_2 (Some k ≠ Some K)) by congruence.
    cbn. by rewrite bool_decide_eq_false_2 by intuition congruence.
Qed.

Lemma cachedFor_consistent w :
  worldConsistent w → entriesOnChain K S (cachedFor K S w).
Proof.
  unfold worldConsistent, cachedFor. destruct (ratchetCache w) as [c|].
  - intros Hc. case_bool_decide as Hpair; [|apply entriesOnChain_empty].
    destruct Hpair as [<- <-]. done.
  - intros _. apply entriesOnChain_empty.
Qed.

Lemma ratchetKey_spec (x : number) w :
  worldConsistent w → (0 < x)%Qc →
  SymmetricEncryption.ratchetKey K S x w
  = (Resolved (hashChain K S (selectedIndex x)),
     match cachedFor K S w !! x with
     | Some _ => withCache K S w (cachedFor K S w) []
     | None => missWorld K S x w
     end).
Proof.
  intros Hw Hx. apply cachedFor_consistent in Hw.
  unfold SymmetricEncryption.ratchetKey, missWorld.
  rewrite bool_decide_eq_false_2 by (by apply Qclt_not_le).
  rewrite (bind_resolved _ _ _ _ _ (initalizeRatchetCache_spec w)).
  rewrite (bind_resolved _ _ _ _ _ (hashesGet_withCache _ _ _ _ _ _)).
  set (m := cachedFor K S w) in *.
  destruct (m !! x) as [v|] eqn:Hx'.
  { destruct (Hw _ _ Hx') as (j & Hj & -> & ->).
    unfold selectedIndex. rewrite Qfloor_Qc_of_Z.
    by replace (1 `max` j) with j by lia. }
  rewrite (bind_resolved _ _ _ _ _ (hashSalt_withCache _ _ _ _ _ _)).
  rewrite (bind_resolved _ _ _ _ _ (hashesGet_withCache _ _ _ _ _ _)).
  cbn [app].
  set (d := Z.to_nat (selectedIndex x - 1)).
  assert (Z.of_nat d = 0 `max` (Qfloor x + 1 - 2)) as Hd
    by (unfold d, selectedIndex; lia).
  assert (hashChain K S (selectedIndex x) = hashChain K S (2 - 1 + Z.of_nat d)) as ->
    by (f_equal; unfold selectedIndex in *; lia).
  assert (entriesOnChain K S (<[Qc_of_Z 1 := hashChain K S 1]> m)) as Hm'
    by (by apply entriesOnChain_insert).
  destruct (m !! Qc_of_Z 1) as [v|] eqn:H1.
  - destruct (entriesOnChain_lookup K S _ _ _ Hw H1) as [_ ->].
    rewrite (bind_resolved _ _ _ (hashChain K S 1)
               (withCache K S w m [CallHashSalt S])) by reflexivity.
    rewrite (bind_resolved _ _ _ _ _ (hashesSet_withCache _ _ _ _ _ _ _)).
    change (hashChain K S 1) with (hashChain K S (2 - 1)) at 2.
    rewrite (ratchetLoop_spec K S x d) by (done || lia).
    by rewrite missCalls_insert by lia.
  - rewrite (bind_resolved _ _ _ _ _ (hash_withCache _ _ _ _ _ _ _)).
    rewrite (bind_resolved _ _ _ _ _ (hashesSet_withCache _ _ _ _ _ _ _)).
    change (strongHash K (SaltDigest S)) with (hashChain K S (2 - 1)) at 1.
    rewrite (ratchetLoop_spec K S x d) by (done || lia).
    by rewrite missCalls_insert by lia.
Qed.
End RatchetKey.

Section Reachable.
Context `{Providers}.

Lemma preserves_bind {A B} P (m : M A) (f : A → M B) :
  preserves P m → (∀ a, preserves P (f a)) → preserves P (bind m f).
Proof.
  intros Hm Hf w Hw. unfold bind. specialize (Hm w Hw).
  destruct (m w) as [[a|e|] w']; cbn in *; [by apply Hf|done|done].
Qed.

Lemma preserves_ret {A} P (a : A) : preserves P (ret a).
Proof. by intros w. Qed.

Lemma preserves_throw {A} P e : preserves P (@throw A e).
Proof. by intros w. Qed.

Lemma preserves_orThrow {A} P (r : Exception + A) : preserves P (orThrow r).
Proof. destruct r; [apply preserves_throw|apply preserves_ret]. Qed.

Lemma preserves_logCall Q c : preserves (onCache Q) (logCall c).
Proof. by intros w. Qed.

Lemma preserves_getRandomValues Q n :
  preserves (onCache Q) (SymmetricEncryption.getRandomValues n).
Proof. by intros w. Qed.

Lemma preserves_importKey Q k : preserves (onCache Q) (SymmetricEncryption.importKey k).
Proof.
  unfold SymmetricEncryption.importKey.
  case_bool_decide; [apply preserves_ret|apply preserves_throw].
Qed.

Lemma preserves_encrypt Q k v : preserves (onCache Q) (SymmetricEncryption.encrypt k v).
Proof.
  unfold SymmetricEncryption.encrypt.
  apply preserves_bind; [apply preserves_getRandomValues|intros iv].
  apply preserves_bind; [apply preserves_importKey|intros aesKey].
  apply preserves_ret.
Qed.

Lemma preserves_decrypt Q k v : preserves (onCache Q) (SymmetricEncryption.decrypt k v).
Proof.
  unfold SymmetricEncryption.decrypt.
  apply preserves_bind; [apply preserves_importKey|intros aesKey].
  destruct (AES_GCM_decrypt _ _ _); [apply preserves_ret|apply preserves_throw].
Qed.

Lemma preserves_hashSalt Q s : preserves (onCache Q) (Kdf.hashSalt s).
Proof.
  unfold Kdf.hashSalt.
  apply preserves_bind; [apply preserves_logCall|intros _; apply preserves_ret].
Qed.

Lemma preserves_hash Q k s h : preserves (onCache Q) (Kdf.hash k s h).
Proof.
  unfold Kdf.hash, Kdf.saltHashOf. apply preserves_bind.
  - destruct s, h; auto using preserves_ret, preserves_throw, preserves_hashSalt.
  - intros saltHash.
    apply preserves_bind; [apply preserves_logCall|intros _; apply preserves_ret].
Qed.

Lemma worldConsistent_onCache :
  worldConsistent = onCache (λ c, match c with
                                  | Some c => entriesOnChain (RatchetCache.key c)
                                                (RatchetCache.salt c) (RatchetCache.hashes c)
                                  | None => True
                                  end).
Proof. reflexivity. Qed.

Lemma ratchetKey_rejects K S (x : number) w :
  (x ≤ 0)%Qc →
  SymmetricEncryption.ratchetKey K S x w = (Rejected InvalidRatchetCount, w).
Proof.
  intros Hx. unfold SymmetricEncryption.ratchetKey.
  by rewrite bool_decide_eq_true_2.
Qed.

Lemma missWorld_consistent K S x w :
  worldConsistent w → worldConsistent (missWorld K S x w).
Proof.
  intros Hw. unfold worldConsistent, missWorld, withCache. cbn.
  apply entriesOnChain_fillFrom; [lia|].
  apply entriesOnChain_insert; [lia|]. by apply cachedFor_consistent.
Qed.

Lemma preserves_ratchetKey K S x :
  preserves worldConsistent (SymmetricEncryption.ratchetKey K S x).
Proof.
  intros w Hw. destruct (decide (x ≤ 0)%Qc) as [Hx|Hx].
  - by rewrite ratchetKey_rejects.
  - rewrite ratchetKey_spec by (done || by apply Qcnot_le_lt). cbn [snd].
    destruct (cachedFor K S w !! x); [|by apply missWorld_consistent].
    by apply cachedFor_consistent.
Qed.

Lemma preserves_perform op : ∀ w, worldConsistent w → worldConsistent (perform op w).
Proof.
  destruct op; cbn [perform].
  - unfold SymmetricEncryption.encryptMetadata.
    apply preserves_bind; [apply preserves_ratchetKey|intros k].
    destruct (SymmetricEncryption.notAnObject _); [apply preserves_throw|].
    rewrite worldConsistent_onCache.
    destruct (JSON_stringify _); auto using preserves_encrypt, preserves_throw.
  - unfold SymmetricEncryption.decryptMetadata.
    apply preserves_bind; [apply preserves_ratchetKey|intros k].
    apply preserves_bind;
      [rewrite worldConsistent_onCache; apply preserves_decrypt|intros p].
    destruct (JSON_parse _); [|apply preserves_throw].
    destruct (SymmetricEncryption.notAnObject _); [apply preserves_throw|].
    apply preserves_bind; [apply preserves_orThrow|intros ck].
    destruct (negb _); [apply preserves_throw|apply preserves_ret].
  - rewrite worldConsistent_onCache. apply preserves_getRandomValues.
  - rewrite worldConsistent_onCache. unfold SymmetricEncryption.createContentKeyBase64.
    apply preserves_bind; [apply preserves_getRandomValues|intros k; apply preserves_ret].
  - rewrite worldConsistent_onCache. unfold SymmetricEncryption.encryptFile.
    apply preserves_bind; [apply preserves_orThrow|intros f].
    apply preserves_bind; [apply preserves_orThrow|intros k].
    apply preserves_encrypt.
  - rewrite worldConsistent_onCache. unfold SymmetricEncryption.decryptFile.
    apply preserves_bind; [apply preserves_orThrow|intros f].
    apply preserves_bind; [apply preserves_orThrow|intros k].
    apply preserves_decrypt.
  - by intros w.
  - rewrite worldConsistent_onCache. unfold Signature.createKeyPairFromKeyPhrase.
    apply preserves_bind; [apply preserves_hash|intros k].
    apply preserves_bind; [apply preserves_orThrow|intros p; apply preserves_ret].
Qed.

Lemma reachable_consistent w : reachable w → worldConsistent w.
Proof.
  induction 1 as [|op w _ IH]; [done|]. by apply preserves_perform.
Qed.

Lemma inTurn_reachable ops : reachable (inTurn ops).
Proof.
  unfold inTurn. induction ops as [|op ops IH] using rev_ind; [constructor|].
  rewrite foldl_app. cbn. by constructor.
Qed.

Lemma reachable_inTurn w : reachable w → ∃ ops, w = inTurn ops.
Proof.
  induction 1 as [|op w _ [ops ->]]; [by exists []|].
  exists (ops ++ [op]). unfold inTurn. by rewrite foldl_app.
Qed.
End Reachable.

Lemma strongHashCalls_app calls1 calls2 :
  strongHashCalls (calls1 ++ calls2) = (strongHashCalls calls1 + strongHashCalls calls2)%nat.
Proof.
  induction calls1 as [|[] calls1 IH]; cbn [strongHashCalls app]; [done|..];
    by rewrite IH.
Qed.

Lemma strongHashCalls_fast {A} (key : A → bytes) (h : bytes) (l : list A) :
  strongHashCalls ((λ j, CallFastHash (key j) h) <$> l) = 0%nat.
Proof. induction l as [|a l IH]; [done|]. cbn. exact IH. Qed.

Section RatchetFacts.
Context `{Providers}.
Variables K S : string.

Lemma selectedIndex_integer (N : Z) : 1 ≤ N → selectedIndex (Qc_of_Z N) = N.
Proof. intros HN. unfold selectedIndex. rewrite Qfloor_Qc_of_Z. lia. Qed.

Lemma Qc_of_Z_positive (N : Z) : 1 ≤ N → (0 < Qc_of_Z N)%Qc.
Proof. intros HN. rewrite <- Z2Qc_inj_0, <- Z2Qc_inj_lt. lia. Qed.

Lemma cachedFor_fresh w : ratchetCache w = None → cachedFor K S w = ∅.
Proof. unfold cachedFor. by intros ->. Qed.

Lemma fresh_consistent w : ratchetCache w = None → worldConsistent w.
Proof. unfold worldConsistent. by intros ->. Qed.

Lemma cachedFor_withCache w m calls : cachedFor K S (withCache K S w m calls) = m.
Proof. unfold cachedFor, withCache. cbn. by rewrite bool_decide_eq_true_2. Qed.

(** After a first ratchet to index 1 + d on an empty cache, the cache
    holds the chain keys of the indices 1, ..., 1 + d and nothing else. *)
Lemma lookup_filled (d : nat) (j : Z) :
  fillFrom K S 2 d (<[Qc_of_Z 1 := hashChain K S 1]> ∅) !! Qc_of_Z j
  = if bool_decide (1 ≤ j ≤ 1 + Z.of_nat d) then Some (hashChain K S j) else None.
Proof.
  rewrite lookup_fillFrom, lookup_fillFrom_empty.
  destruct (decide (2 ≤ j < 2 + Z.of_nat d)) as [Hin|Hout].
  - by rewrite !bool_decide_eq_true_2 by lia.
  - rewrite (bool_decide_eq_false_2 _ Hout).
    destruct (decide (j = 1)) as [->|Hne].
    + rewrite lookup_insert_eq. by rewrite bool_decide_eq_true_2 by lia.
    + rewrite lookup_insert_ne, lookup_empty by (intros ?%Z2Qc_inj; done).
      by rewrite bool_decide_eq_false_2 by lia.
Qed.

Lemma ratchetKey_fresh (N : Z) w :
  1 ≤ N → ratchetCache w = None →
  SymmetricEncryption.ratchetKey K S (Qc_of_Z N) w
  = (Resolved (hashChain K S N),
     withCache K S w
       (fillFrom K S 2 (Z.to_nat (N - 1)) (<[Qc_of_Z 1 := hashChain K S 1]> ∅))
       (CallHashSalt S :: CallHash K (SaltDigest S)
        :: ((λ j, CallFastHash (hashChain K S (j - 1)) (SaltDigest S))
              <$> seqZ 2 (N - 1)))).
Proof.
  intros HN Hfresh.
  rewrite ratchetKey_spec by auto using fresh_consistent, Qc_of_Z_positive.
  unfold missWorld. rewrite cachedFor_fresh, !lookup_empty by done.
  rewrite selectedIndex_integer by done.
  rewrite missCalls_missing by (intros; apply lookup_empty).
  by rewrite Z2Nat.id by lia.
Qed.
End RatchetFacts.

Section RatchetTheorems.
Context `{Providers}.


(** C2. For 1 <= M < N, ratcheting to N on an empty cache gives the
    same key as ratcheting to M first and then to N on the cache the
    first call filled: both are k_N.  The second call hashes the salt
    and then calls the fast hash for the indices M+1..N only, on
    k_M..k_{N-1}; it never calls the strong hash. *)
Theorem ratchet_reuses_cached_prefix (K S : string) (M N : Z) (w : World) :
  1 ≤ M < N → ratchetCache w = None →
  let direct := SymmetricEncryption.ratchetKey K S (Qc_of_Z N) w in
  let w1 := snd (SymmetricEncryption.ratchetKey K S (Qc_of_Z M) w) in
  let viaPrefix := SymmetricEncryption.ratchetKey K S (Qc_of_Z N) w1 in
  fst viaPrefix = fst direct
  ∧ fst direct = Resolved (hashChain K S N)
  ∧ kdfCalls (snd viaPrefix)
    = kdfCalls w1
      ++ CallHashSalt S
         :: ((λ j, CallFastHash (hashChain K S (j - 1)) (SaltDigest S))
               <$> seqZ (M + 1) (N - M))
  ∧ strongHashCalls (kdfCalls (snd viaPrefix)) = strongHashCalls (kdfCalls w1).
Proof.
  intros [HM HN] Hfresh. cbn zeta.
  rewrite (ratchetKey_fresh K S N w) by (done || lia).
  rewrite (ratchetKey_fresh K S M w) by done. cbn [fst snd].
  set (m1 := fillFrom K S 2 (Z.to_nat (M - 1)) (<[Qc_of_Z 1 := hashChain K S 1]> ∅)).
  set (w1 := withCache K S w m1 _).
  assert (∀ j : Z, m1 !! Qc_of_Z j
                   = if bool_decide (1 ≤ j ≤ M) then Some (hashChain K S j) else None)
    as Hm1.
  { intros j. unfold m1. rewrite lookup_filled.
    by replace (1 + Z.of_nat (Z.to_nat (M - 1))) with M by lia. }
  assert (worldConsistent w1) as Hw1.
  { unfold worldConsistent, w1, withCache, m1. cbn.
    apply entriesOnChain_fillFrom; [lia|].
    apply entriesOnChain_insert; [lia|apply entriesOnChain_empty]. }
  rewrite ratchetKey_spec by (done || apply Qc_of_Z_positive; lia).
  assert (cachedFor K S w1 = m1) as Hc by apply cachedFor_withCache.
  unfold missWorld. rewrite !Hc, !Hm1.
  rewrite bool_decide_eq_false_2 by lia.
  rewrite bool_decide_eq_true_2 by lia.
  rewrite !selectedIndex_integer by lia. cbn [fst app].
  replace (Z.to_nat (N - 1)) with (Z.to_nat (M - 1) + Z.to_nat (N - M))%nat by lia.
  rewrite missCalls_app.
  rewrite missCalls_cached; [|intros j Hj; rewrite Hm1;
    rewrite bool_decide_eq_true_2 by lia; eauto].
  rewrite missCalls_missing; [|intros j Hj; rewrite Hm1;
    by rewrite bool_decide_eq_false_2 by lia].
  replace (2 + Z.of_nat (Z.to_nat (M - 1))) with (M + 1) by lia.
  rewrite Z2Nat.id by lia. cbn [app].
  split_and!; [done|done|done|].
  cbn [snd]. unfold withCache at 1. cbn [kdfCalls].
  rewrite strongHashCalls_app. cbn [strongHashCalls].
  rewrite strongHashCalls_fast. lia.
Qed.
End RatchetTheorems.


Lemma ratchet_reuses_cached_prefix_example :
  let w1 := snd (SymmetricEncryption.ratchetKey (H := TestDoubles.providers)
                   "test123" "my-clipboard" (Qc_of_Z 2) initialWorld) in
  fst (SymmetricEncryption.ratchetKey (H := TestDoubles.providers)
         "test123" "my-clipboard" (Qc_of_Z 5) w1)
  = fst (SymmetricEncryption.ratchetKey (H := TestDoubles.providers)
           "test123" "my-clipboard" (Qc_of_Z 5) initialWorld).
Proof.
  apply (ratchet_reuses_cached_prefix (H := TestDoubles.providers)
           "test123" "my-clipboard" 2 5 initialWorld); [lia|reflexivity].
Defined.

Section RatchetOutcome.
Context `{Providers}.
Variables K S : string.

Lemma ratchetKey_resolved (x : number) w :
  worldConsistent w → (0 < x)%Qc →
  SymmetricEncryption.ratchetKey K S x w
  = (Resolved (hashChain K S (selectedIndex x)),
     snd (SymmetricEncryption.ratchetKey K S x w)).
Proof. intros Hw Hx. by rewrite ratchetKey_spec. Qed.

Lemma ratchetKey_randomDraws (x : number) w :
  worldConsistent w →
  randomDraws (snd (SymmetricEncryption.ratchetKey K S x w)) = randomDraws w.
Proof.
  intros Hw. destruct (decide (x ≤ 0)%Qc) as [Hx|Hx].
  - by rewrite ratchetKey_rejects.
  - rewrite ratchetKey_spec by (done || by apply Qcnot_le_lt). cbn [snd].
    unfold missWorld. by destruct (cachedFor K S w !! x).
Qed.

Lemma ratchetKey_cache (x : number) w :
  worldConsistent w → (0 < x)%Qc →
  ∃ m, ratchetCache (snd (SymmetricEncryption.ratchetKey K S x w))
       = Some {| RatchetCache.key := K; RatchetCache.salt := S;
                 RatchetCache.hashes := m |}
       ∧ entriesOnChain K S m
       ∧ (cachedFor K S w !! x = None →
          m = fillFrom K S 2 (Z.to_nat (selectedIndex x - 1))
                (<[Qc_of_Z 1 := hashChain K S 1]> (cachedFor K S w))).
Proof.
  intros Hw Hx. rewrite ratchetKey_spec by done. cbn [snd].
  pose proof (cachedFor_consistent K S w Hw) as Hm.
  destruct (cachedFor K S w !! x) eqn:Hlook.
  - eexists. split; [reflexivity|]. by split.
  - eexists. split; [reflexivity|]. split; [|done].
    apply entriesOnChain_fillFrom; [lia|]. by apply entriesOnChain_insert.
Qed.

Lemma cachedFor_other_pair w :
  cachedPair w ≠ Some (K, S) → cachedFor K S w = ∅.
Proof.
  unfold cachedPair, cachedFor. destruct (ratchetCache w) as [[k s m]|]; [|done].
  cbn. intros Hne. rewrite bool_decide_eq_false_2; [done|].
  intros [-> ->]. done.
Qed.

End RatchetOutcome.

Section CacheTheorems.
Context `{Providers}.

(** C6. For calls made in turn, each settled before the next one is
    made: the cache is one record tagged with one (keyphrase, salt)
    pair, and in the world [inTurn ops] every key it holds is a chain
    key of that pair.  A ratchet request with a count that is not
    positive is refused before the cache is looked at, and leaves the
    world as it is.  A request with a positive count for a pair (K, S)
    other than the cached one first replaces the cache by an empty one
    tagged (K, S); it returns the chain key of (K, S), and leaves a
    cache tagged (K, S) whose every entry is a chain key of (K, S);
    after a change of pair the cache holds the indices computed by this
    request and nothing older. *)
Theorem ratchet_cache_holds_one_pair (ops : list Operation) (K S : string)
    (x : number) :
  let w := inTurn ops in
  let w' := snd (SymmetricEncryption.ratchetKey K S x w) in
  worldConsistent w
  ∧ ((x ≤ 0)%Qc →
     SymmetricEncryption.ratchetKey K S x w = (Rejected InvalidRatchetCount, w))
  ∧ ((0 < x)%Qc →
     (cachedPair w ≠ Some (K, S) →
      ratchetCache (snd (SymmetricEncryption.initalizeRatchetCache K S w))
      = Some {| RatchetCache.key := K; RatchetCache.salt := S;
                RatchetCache.hashes := ∅ |})
     ∧ fst (SymmetricEncryption.ratchetKey K S x w)
       = Resolved (hashChain K S (selectedIndex x))
     ∧ cachedPair w' = Some (K, S)
     ∧ (∀ k v, cachedFor K S w' !! k = Some v
               → ∃ j : Z, 1 ≤ j ∧ k = Qc_of_Z j ∧ v = hashChain K S j)
     ∧ (cachedPair w ≠ Some (K, S) →
        ∀ k, is_Some (cachedFor K S w' !! k)
             → ∃ j : Z, 1 ≤ j ≤ selectedIndex x ∧ k = Qc_of_Z j)).
Proof.
  intros w w'.
  pose proof (reachable_consistent w (inTurn_reachable ops)) as Hw.
  split; [exact Hw|]. split.
  { intros Hx. unfold SymmetricEncryption.ratchetKey.
    by rewrite bool_decide_eq_true_2. }
  intros Hx.
  destruct (ratchetKey_cache K S x w Hw Hx) as (m & Hcache & Hm & Hmiss).
  assert (cachedFor K S w' = m) as Hfor.
  { unfold cachedFor, w'. rewrite Hcache. cbn.
    by rewrite bool_decide_eq_true_2. }
  split_and!.
  - intros Hne. rewrite initalizeRatchetCache_spec. cbn.
    by rewrite cachedFor_other_pair.
  - by rewrite ratchetKey_resolved.
  - unfold cachedPair, w'. by rewrite Hcache.
  - rewrite Hfor. exact Hm.
  - intros Hne k [v Hk]. rewrite Hfor in Hk.
    destruct (Hm _ _ Hk) as (j & Hj & -> & _). exists j. split; [|done].
    rewrite Hmiss in Hk by (by rewrite cachedFor_other_pair, lookup_empty).
    rewrite cachedFor_other_pair, lookup_filled in Hk by done.
    case_bool_decide; [unfold selectedIndex in *; lia|done].
Qed.
End CacheTheorems.

Lemma ratchet_cache_holds_one_pair_example :
  let w := inTurn (H := TestDoubles.providers)
             [DecryptMetadata "test123" "my-clipboard" (Qc_of_Z 3) []] in
  cachedPair w = Some ("test123", "my-clipboard")
  ∧ SymmetricEncryption.ratchetKey (H := TestDoubles.providers) "other" "space" 0%Qc w
    = (Rejected InvalidRatchetCount, w)
  ∧ fst (SymmetricEncryption.ratchetKey (H := TestDoubles.providers) "other" "space"
           (Qc_of_Z 2) w)
    = Resolved (hashChain (H := TestDoubles.providers) "other" "space"
                  (selectedIndex (Qc_of_Z 2)))
  ∧ cachedPair (snd (SymmetricEncryption.ratchetKey (H := TestDoubles.providers)
                       "other" "space" (Qc_of_Z 2) w))
    = Some ("other", "space").
Proof.
  intros w.
  destruct (ratchet_cache_holds_one_pair (H := TestDoubles.providers)
              [DecryptMetadata "test123" "my-clipboard" (Qc_of_Z 3) []]
              "other" "space" 0%Qc) as (_ & Hrefused & _).
  destruct (ratchet_cache_holds_one_pair (H := TestDoubles.providers)
              [DecryptMetadata "test123" "my-clipboard" (Qc_of_Z 3) []]
              "other" "space" (Qc_of_Z 2)) as (_ & _ & Hserved).
  destruct (Hserved ltac:(reflexivity)) as (_ & Hkey & Htag & _).
  split_and!.
  - vm_compute. reflexivity.
  - apply Hrefused. discriminate.
  - exact Hkey.
  - exact Htag.
Defined.

(** ** Metadata and files *)

Section Codec.
Context `{Providers}.


Lemma decrypt_any_world k v w w' :
  fst (SymmetricEncryption.decrypt k v w) = fst (SymmetricEncryption.decrypt k v w').
Proof.
  unfold SymmetricEncryption.decrypt, bind, SymmetricEncryption.importKey.
  case_bool_decide; [|done]. cbn. by destruct (AES_GCM_decrypt _ _ _).
Qed.

Lemma decrypt_keeps_world k v w :
  snd (SymmetricEncryption.decrypt k v w) = w.
Proof.
  unfold SymmetricEncryption.decrypt, bind, SymmetricEncryption.importKey.
  case_bool_decide; [|done]. cbn. by destruct (AES_GCM_decrypt _ _ _).
Qed.

Lemma encryptMetadata_unfold K S x m :
  SymmetricEncryption.encryptMetadata K S x m
  = (ratchetedKey <- SymmetricEncryption.ratchetKey K S x ;; sealMetadata ratchetedKey m).
Proof. reflexivity. Qed.

Lemma decryptMetadata_unfold K S x blob :
  SymmetricEncryption.decryptMetadata K S x blob
  = (ratchetedKey <- SymmetricEncryption.ratchetKey K S x ;;
     decryptedMetadata <- SymmetricEncryption.decrypt ratchetedKey blob ;;
     readMetadata decryptedMetadata).
Proof. reflexivity. Qed.


Lemma readMetadata_any_world p w w' :
  fst (readMetadata p w) = fst (readMetadata p w').
Proof.
  unfold readMetadata. destruct (JSON_parse _) as [m|]; [|done].
  destruct (SymmetricEncryption.notAnObject m); [done|].
  unfold bind. destruct (contentKeyBase64 m) as [e|ck]; [done|]. cbn.
  by destruct (negb (truthy ck)).
Qed.

Lemma opened_any_world k blob w w' :
  fst ((p <- SymmetricEncryption.decrypt k blob ;; readMetadata p) w)
  = fst ((p <- SymmetricEncryption.decrypt k blob ;; readMetadata p) w').
Proof.
  unfold bind.
  pose proof (decrypt_any_world k blob w w') as Hd.
  destruct (SymmetricEncryption.decrypt k blob w) as [[p| |] w1],
           (SymmetricEncryption.decrypt k blob w') as [[p'| |] w1'];
    cbn in Hd; try done; simplify_eq; [|done].
  apply readMetadata_any_world.
Qed.



End Codec.

Section IndexTheorems.
Context `{Providers}.

(** C7. For every ratchet count <= 0, and any keyphrase, salt and
    payload, [encryptMetadata] and [decryptMetadata] are rejected with
    "Ratchet count must be larger than 0" and leave the world as it
    was: no call to the KDF is made and the cache is not touched. *)
Theorem nonpositive_count_is_rejected (K S : string) (x : number)
    (metadata : JsValue) (blob : bytes) (w : World) :
  (x ≤ 0)%Qc →
  SymmetricEncryption.encryptMetadata K S x metadata w
  = (Rejected (Error "Ratchet count must be larger than 0"), w)
  ∧ SymmetricEncryption.decryptMetadata K S x blob w
    = (Rejected (Error "Ratchet count must be larger than 0"), w).
Proof.
  intros Hx. rewrite encryptMetadata_unfold, decryptMetadata_unfold.
  by rewrite !(bind_rejected _ _ _ _ _ (ratchetKey_rejects K S x w Hx)).
Qed.


End IndexTheorems.

Lemma nonpositive_count_is_rejected_example :
  SymmetricEncryption.encryptMetadata (H := TestDoubles.providers)
    "test123" "my-clipboard" (Qc_of_Z 0) (JObject []) initialWorld
  = (Rejected (Error "Ratchet count must be larger than 0"), initialWorld).
Proof.
  apply (nonpositive_count_is_rejected (H := TestDoubles.providers)
           "test123" "my-clipboard" (Qc_of_Z 0) (JObject []) [] initialWorld).
  vm_compute. discriminate.
Defined.



Section RoundTrip.
Context `{Providers}.

Lemma hashChain_length K S N : argon2_length_law → length (hashChain K S N) = 32%nat.
Proof.
  intros Hlen. unfold hashChain.
  destruct (Z.to_nat (N - 1)) as [|d]; by apply Hlen.
Qed.

Lemma importKey_256 k w :
  length k = 32%nat → SymmetricEncryption.importKey k w = (Resolved k, w).
Proof.
  intros Hk. unfold SymmetricEncryption.importKey. rewrite Hk.
  by rewrite bool_decide_eq_true_2 by set_solver.
Qed.

Lemma encrypt_256 k v w :
  length k = 32%nat →
  ∃ iv, length iv = 16%nat
        ∧ fst (SymmetricEncryption.encrypt k v w)
          = Resolved (iv ++ AES_GCM_encrypt k iv v).
Proof.
  intros Hk. exists (map (randomByte (randomDraws w)) (seq 0 16)).
  split; [by rewrite length_map, length_seq|].
  unfold SymmetricEncryption.encrypt, bind, SymmetricEncryption.getRandomValues.
  by rewrite importKey_256.
Qed.

Lemma decrypt_encrypted k iv v w :
  AES_GCM_law → length k = 32%nat → length iv = 16%nat →
  SymmetricEncryption.decrypt k (iv ++ AES_GCM_encrypt k iv v) w = (Resolved v, w).
Proof.
  intros Haes Hk Hiv. unfold SymmetricEncryption.decrypt, bind.
  rewrite importKey_256 by done.
  rewrite take_app_length', drop_app_length' by done.
  by rewrite Haes.
Qed.

Lemma notAnObject_record properties :
  SymmetricEncryption.notAnObject (JObject properties) = false.
Proof. reflexivity. Qed.

End RoundTrip.



Section ContentKey.
Context `{Providers}.

(** C10. Whenever a blob decrypts under the ratcheted key and parses to
    a record whose [contentKeyBase64] property is there but falsy (the
    empty string, 0, false, null), [decryptMetadata] is rejected with
    "content key not found in metadata". *)
Theorem falsy_content_key_is_rejected (K S : string) (x : number) (blob : bytes)
    (w w1 w2 : World) (k p : bytes) (properties : list (string * JsValue))
    (field : JsValue) :
  SymmetricEncryption.ratchetKey K S x w = (Resolved k, w1) →
  SymmetricEncryption.decrypt k blob w1 = (Resolved p, w2) →
  JSON_parse (TextDecoder_decode p) = Some (JObject properties) →
  ownProperty "contentKeyBase64" properties = Some field →
  truthy field = false →
  SymmetricEncryption.decryptMetadata K S x blob w
  = (Rejected (Error "content key not found in metadata"), w2).
Proof.
  intros Hratchet Hdecrypt Hparse Hfield Hfalsy.
  rewrite decryptMetadata_unfold.
  rewrite (bind_resolved _ _ _ _ _ Hratchet), (bind_resolved _ _ _ _ _ Hdecrypt).
  unfold readMetadata. rewrite Hparse, notAnObject_record.
  unfold bind, contentKeyBase64. rewrite Hfield. cbn [orThrow ret].
  by rewrite Hfalsy.
Qed.

(** C5, as the code has it. Whenever a blob decrypts under the
    ratcheted key and parses to a record: if the record has no
    [contentKeyBase64] property, [decryptMetadata] is rejected with
    "content key not found in metadata"; if it has one that is truthy,
    the record is returned as it is, whatever the property holds:
    [decryptMetadata] neither decodes the key nor checks its length. *)
Theorem content_key_presence_is_checked (K S : string) (x : number) (blob : bytes)
    (w w1 w2 : World) (k p : bytes) (properties : list (string * JsValue)) :
  SymmetricEncryption.ratchetKey K S x w = (Resolved k, w1) →
  SymmetricEncryption.decrypt k blob w1 = (Resolved p, w2) →
  JSON_parse (TextDecoder_decode p) = Some (JObject properties) →
  (ownProperty "contentKeyBase64" properties = None →
   SymmetricEncryption.decryptMetadata K S x blob w
   = (Rejected MissingContentKey, w2))
  ∧ (∀ field, ownProperty "contentKeyBase64" properties = Some field →
              truthy field = true →
              SymmetricEncryption.decryptMetadata K S x blob w
              = (Resolved (JObject properties), w2)).
Proof.
  intros Hratchet Hdecrypt Hparse.
  rewrite decryptMetadata_unfold.
  rewrite (bind_resolved _ _ _ _ _ Hratchet), (bind_resolved _ _ _ _ _ Hdecrypt).
  unfold readMetadata. rewrite Hparse, notAnObject_record.
  unfold bind, contentKeyBase64. split.
  - by intros ->.
  - intros field -> Htruthy. cbn [orThrow ret]. by rewrite Htruthy.
Qed.

(** C4, at its failing input. The number 0 is not an object, and it
    passes the shape check of [encryptMetadata]: on an empty cache, with
    the count 1, the call is not rejected with "Metadata must be an
    object"; it goes on to serialise the 0 and to encrypt the text under
    the first key of the chain. *)
Theorem zero_passes_the_shape_check (K S : string) :
  let w1 := snd (SymmetricEncryption.ratchetKey K S (Qc_of_Z 1) initialWorld) in
  typeof (JNumber 0%Qc) = "number"
  ∧ SymmetricEncryption.notAnObject (JNumber 0%Qc) = false
  ∧ fst (SymmetricEncryption.encryptMetadata K S (Qc_of_Z 1) (JNumber 0%Qc)
           initialWorld)
    ≠ Rejected (Error "Metadata must be an object")
  ∧ fst (SymmetricEncryption.encryptMetadata K S (Qc_of_Z 1) (JNumber 0%Qc)
           initialWorld)
    = match JSON_stringify (JNumber 0%Qc) with
      | JsonTypeError => Rejected TypeError
      | JsonText text =>
          fst (SymmetricEncryption.encrypt (strongHash K (SaltDigest S))
                 (TextEncoder_encode text) w1)
      | JsonUndefined =>
          fst (SymmetricEncryption.encrypt (strongHash K (SaltDigest S))
                 (TextEncoder_encode "") w1)
      end.
Proof.
  intros w1.
  assert (∀ k v w, fst (SymmetricEncryption.encrypt k v w)
                   ≠ Rejected (Error "Metadata must be an object")) as Hencrypt.
  { intros k v w. unfold SymmetricEncryption.encrypt, bind,
      SymmetricEncryption.getRandomValues, SymmetricEncryption.importKey.
    by case_bool_decide. }
  rewrite encryptMetadata_unfold.
  rewrite (bind_resolved _ _ _ _ _
             (ratchetKey_resolved K S (Qc_of_Z 1) initialWorld I eq_refl)).
  fold w1. unfold sealMetadata.
  change (SymmetricEncryption.notAnObject (JNumber 0%Qc)) with false.
  cbn match. change (hashChain K S (selectedIndex (Qc_of_Z 1)))
    with (strongHash K (SaltDigest S)).
  split_and!; [done|done| |by destruct (JSON_stringify _)].
  destruct (JSON_stringify _); [apply Hencrypt|apply Hencrypt|done].
Qed.

(** No falsy value is stopped by the shape check. *)
Lemma falsy_passes_the_shape_check (m : JsValue) :
  truthy m = false → SymmetricEncryption.notAnObject m = false.
Proof. unfold SymmetricEncryption.notAnObject. by intros ->. Qed.

(** A value that is truthy and whose [typeof] is not "object" is
    refused, once the ratchet has returned. *)
Lemma truthy_non_object_is_rejected (K S : string) (x : number) (m : JsValue)
    (w : World) :
  reachable w → (0 < x)%Qc → truthy m = true → typeof m ≠ "object" →
  SymmetricEncryption.encryptMetadata K S x m w
  = (Rejected InvalidMetadataShape, snd (SymmetricEncryption.ratchetKey K S x w)).
Proof.
  intros Hw%reachable_consistent Hx Htruthy Htype.
  rewrite encryptMetadata_unfold.
  rewrite (bind_resolved _ _ _ _ _ (ratchetKey_resolved K S x w Hw Hx)).
  unfold sealMetadata, SymmetricEncryption.notAnObject.
  by rewrite Htruthy, bool_decide_eq_true_2.
Qed.
End ContentKey.

Lemma falsy_content_key_is_rejected_example :
  let w1 := snd (SymmetricEncryption.ratchetKey (H := TestDoubles.providers)
                   "test123" "my-clipboard" (Qc_of_Z 2) initialWorld) in
  SymmetricEncryption.decryptMetadata (H := TestDoubles.providers)
    "test123" "my-clipboard" (Qc_of_Z 2) emptyKeyBlob initialWorld
  = (Rejected (Error "content key not found in metadata"), w1).
Proof.
  intros w1.
  eapply (falsy_content_key_is_rejected (H := TestDoubles.providers)
            "test123" "my-clipboard" (Qc_of_Z 2) emptyKeyBlob initialWorld w1 w1).
  - vm_compute. reflexivity.
  - vm_compute. reflexivity.
  - vm_compute. reflexivity.
  - reflexivity.
  - reflexivity.
Defined.

(** C5 fails on the code: a record whose content key decodes to three
    bytes is returned, not refused. *)
Lemma short_content_key_is_returned :
  fst (SymmetricEncryption.decryptMetadata (H := TestDoubles.providers)
         "test123" "my-clipboard" (Qc_of_Z 2) shortKeyBlob initialWorld)
  = Resolved (JObject [("contentKeyBase64", JString "AAAA")])
  ∧ base64_toByteArray (Providers := TestDoubles.providers) (JString "AAAA")
    = inr [octet 65; octet 65; octet 65]
  ∧ ∀ e, fst (SymmetricEncryption.decryptMetadata (H := TestDoubles.providers)
                "test123" "my-clipboard" (Qc_of_Z 2) shortKeyBlob initialWorld)
         ≠ Rejected e.
Proof.
  assert (fst (SymmetricEncryption.decryptMetadata (H := TestDoubles.providers)
                 "test123" "my-clipboard" (Qc_of_Z 2) shortKeyBlob initialWorld)
          = Resolved (JObject [("contentKeyBase64", JString "AAAA")])) as Hreturned
    by (vm_compute; reflexivity).
  split_and!; [exact Hreturned|vm_compute; reflexivity|].
  intros e. rewrite Hreturned. discriminate.
Qed.

Lemma content_key_presence_is_checked_example :
  let w1 := snd (SymmetricEncryption.ratchetKey (H := TestDoubles.providers)
                   "test123" "my-clipboard" (Qc_of_Z 2) initialWorld) in
  SymmetricEncryption.decryptMetadata (H := TestDoubles.providers)
    "test123" "my-clipboard" (Qc_of_Z 2) shortKeyBlob initialWorld
  = (Resolved (JObject [("contentKeyBase64", JString "AAAA")]), w1).
Proof.
  intros w1.
  edestruct (content_key_presence_is_checked (H := TestDoubles.providers)
               "test123" "my-clipboard" (Qc_of_Z 2) shortKeyBlob initialWorld w1 w1)
    as [_ Hpresent].
  - vm_compute. reflexivity.
  - vm_compute. reflexivity.
  - vm_compute. reflexivity.
  - apply Hpresent with (field := JString "AAAA"); reflexivity.
Defined.

(** C4 at its failing input, on the test doubles: the metadata 0 is
    encrypted. The blob is the IV, the text "0" and the tag. *)
Lemma zero_is_encrypted :
  fst (SymmetricEncryption.encryptMetadata (H := TestDoubles.providers)
         "test123" "my-clipboard" (Qc_of_Z 1) (JNumber 0%Qc) initialWorld)
  = Resolved (octet <$> [0; 1; 2; 3; 4; 5; 6; 7; 8; 9; 10; 11; 12; 13; 14; 15;
                         48;
                         116; 101; 115; 116; 49; 50; 51; 109;
                         0; 1; 2; 3; 4; 5; 6; 7]%N).
Proof. vm_compute. reflexivity. Qed.

(** The counts 1/2 and 19/10 select the first key, 5/2 the second, and a
    negative count is refused. *)
Lemma fractional_counts_on_the_test_doubles :
  fst (SymmetricEncryption.ratchetKey (H := TestDoubles.providers)
         "test123" "my-clipboard" (Q2Qc (1 # 2)) initialWorld)
  = fst (SymmetricEncryption.ratchetKey (H := TestDoubles.providers)
           "test123" "my-clipboard" (Qc_of_Z 1) initialWorld)
  ∧ fst (SymmetricEncryption.ratchetKey (H := TestDoubles.providers)
           "test123" "my-clipboard" (Q2Qc (19 # 10)) initialWorld)
    = fst (SymmetricEncryption.ratchetKey (H := TestDoubles.providers)
             "test123" "my-clipboard" (Qc_of_Z 1) initialWorld)
  ∧ fst (SymmetricEncryption.ratchetKey (H := TestDoubles.providers)
           "test123" "my-clipboard" (Q2Qc (5 # 2)) initialWorld)
    = fst (SymmetricEncryption.ratchetKey (H := TestDoubles.providers)
             "test123" "my-clipboard" (Qc_of_Z 2) initialWorld)
  ∧ fst (SymmetricEncryption.ratchetKey (H := TestDoubles.providers)
           "test123" "my-clipboard" (Q2Qc (-3 # 2)) initialWorld)
    = Rejected InvalidRatchetCount.
Proof. split_and!; vm_compute; reflexivity. Qed.

(** ** Files and content keys *)

Section Files.
Context `{Providers}.

(** [encrypt] draws once, whether or not the key is then accepted, and
    touches nothing else. *)
Lemma encrypt_world k v w :
  snd (SymmetricEncryption.encrypt k v w)
  = {| ratchetCache := ratchetCache w; kdfCalls := kdfCalls w;
       randomDraws := Datatypes.S (randomDraws w) |}.
Proof.
  unfold SymmetricEncryption.encrypt, bind, SymmetricEncryption.getRandomValues,
    SymmetricEncryption.importKey.
  by case_bool_decide.
Qed.

Lemma importKey_accepts k w :
  length k ∈ [16; 24; 32]%nat → SymmetricEncryption.importKey k w = (Resolved k, w).
Proof.
  intros Hk. unfold SymmetricEncryption.importKey.
  by rewrite bool_decide_eq_true_2.
Qed.

Lemma importKey_refuses k w :
  length k ∉ [16; 24; 32]%nat → SymmetricEncryption.importKey k w = (Rejected DataError, w).
Proof.
  intros Hk. unfold SymmetricEncryption.importKey.
  by rewrite bool_decide_eq_false_2.
Qed.

(** The content key of a metadata value, read and decoded. *)
Lemma with_content_key {A} m field cek (f : bytes → M A) w :
  contentKeyBase64 m = inr field →
  base64_toByteArray field = inr cek →
  (field <- orThrow (contentKeyBase64 m) ;;
   contentKey <- orThrow (base64_toByteArray field) ;;
   f contentKey) w = f cek w.
Proof. intros Hfield Hcek. unfold bind. rewrite Hfield. cbn. by rewrite Hcek. Qed.

(** X1. With a content key of an AES length, [encryptFile] returns the
    16 bytes of one new draw of the random source followed by the
    AES-GCM encryption of the file under the content key and those 16
    bytes as IV.  The call uses up exactly that one draw and leaves the
    cache and the record of KDF calls as they were. *)
Theorem encryptFile_layout (m : JsValue) (file : bytes) (w : World)
    (field : JsValue) (cek : bytes) :
  contentKeyBase64 m = inr field →
  base64_toByteArray field = inr cek →
  length cek ∈ [16; 24; 32]%nat →
  let iv := map (randomByte (randomDraws w)) (seq 0 16) in
  SymmetricEncryption.encryptFile m file w
  = (Resolved (iv ++ AES_GCM_encrypt cek iv file),
     {| ratchetCache := ratchetCache w; kdfCalls := kdfCalls w;
        randomDraws := Datatypes.S (randomDraws w) |})
  ∧ length iv = 16%nat
  ∧ length (iv ++ AES_GCM_encrypt cek iv file)
    = (16 + length (AES_GCM_encrypt cek iv file))%nat.
Proof.
  intros Hfield Hcek Hlen iv.
  assert (length iv = 16%nat) as Hiv by (unfold iv; by rewrite length_map, length_seq).
  split_and!; [|done|by rewrite length_app, Hiv].
  unfold SymmetricEncryption.encryptFile.
  rewrite (with_content_key _ _ _ _ _ Hfield Hcek).
  unfold SymmetricEncryption.encrypt, bind, SymmetricEncryption.getRandomValues.
  by rewrite importKey_accepts.
Qed.

(** X2. A content key that decodes to another length than 16, 24 or 32
    bytes is refused: [encryptFile] and [decryptFile] are rejected with
    a [DataError], whatever the file or the blob, and [decryptFile]
    leaves the world as it was. *)
Theorem content_key_of_wrong_length_is_refused (m : JsValue) (file blob : bytes)
    (w : World) (field : JsValue) (cek : bytes) :
  contentKeyBase64 m = inr field →
  base64_toByteArray field = inr cek →
  length cek ∉ [16; 24; 32]%nat →
  fst (SymmetricEncryption.encryptFile m file w) = Rejected DataError
  ∧ SymmetricEncryption.decryptFile m blob w = (Rejected DataError, w).
Proof.
  intros Hfield Hcek Hlen.
  unfold SymmetricEncryption.encryptFile, SymmetricEncryption.decryptFile.
  rewrite !(with_content_key _ _ _ _ _ Hfield Hcek).
  unfold SymmetricEncryption.encrypt, SymmetricEncryption.decrypt, bind,
    SymmetricEncryption.getRandomValues.
  by rewrite !importKey_refuses.
Qed.

(** X3. The operations on files and content keys never ratchet:
    [encryptFile], [decryptFile], [createContentKey] and
    [createContentKeyBase64] leave the cache and the record of KDF
    calls as they were, and [decryptFile] draws no random bytes. *)
Theorem file_operations_never_ratchet (m : JsValue) (file blob : bytes) (w : World) :
  let unchanged (w' : World) :=
    ratchetCache w' = ratchetCache w ∧ kdfCalls w' = kdfCalls w in
  unchanged (snd (SymmetricEncryption.encryptFile m file w))
  ∧ unchanged (snd (SymmetricEncryption.decryptFile m blob w))
  ∧ randomDraws (snd (SymmetricEncryption.decryptFile m blob w)) = randomDraws w
  ∧ unchanged (snd (SymmetricEncryption.createContentKey w))
  ∧ unchanged (snd (SymmetricEncryption.createContentKeyBase64 w)).
Proof.
  cbn zeta.
  assert (snd (SymmetricEncryption.decryptFile m blob w) = w) as ->.
  { unfold SymmetricEncryption.decryptFile, bind.
    destruct (contentKeyBase64 m) as [e|field]; [done|]. cbn [orThrow ret].
    destruct (base64_toByteArray field) as [e|cek]; [done|]. cbn [orThrow ret].
    apply decrypt_keeps_world. }
  assert (∃ draws, snd (SymmetricEncryption.encryptFile m file w)
                   = {| ratchetCache := ratchetCache w; kdfCalls := kdfCalls w;
                        randomDraws := draws |}) as [draws ->].
  { unfold SymmetricEncryption.encryptFile, bind.
    destruct (contentKeyBase64 m) as [e|field];
      [exists (randomDraws w); by destruct w|]. cbn [orThrow ret].
    destruct (base64_toByteArray field) as [e|cek];
      [exists (randomDraws w); by destruct w|]. cbn [orThrow ret].
    rewrite encrypt_world. by eexists. }
  by split_and!.
Qed.

(** X4. A content key made by [createContentKeyBase64] is the base64 of
    the 32 bytes [createContentKey] draws in the same world, and it
    serves: under the laws of base64 and of AES-GCM, with that key as
    [contentKeyBase64] of a record, [encryptFile] returns a blob for
    every file and [decryptFile] returns the file from it. *)
Theorem generated_content_key_serves (file : bytes)
    (properties : list (string * JsValue)) (w w1 w2 : World) :
  base64_law → AES_GCM_law →
  ∃ key key64,
    fst (SymmetricEncryption.createContentKey w) = Resolved key
    ∧ length key = 32%nat
    ∧ fst (SymmetricEncryption.createContentKeyBase64 w) = Resolved key64
    ∧ key64 = base64_fromByteArray key
    ∧ let m := JObject (("contentKeyBase64", JString key64) :: properties) in
      ∃ blob, fst (SymmetricEncryption.encryptFile m file w1) = Resolved blob
              ∧ fst (SymmetricEncryption.decryptFile m blob w2) = Resolved file.
Proof.
  intros Hb64 Haes.
  set (key := map (randomByte (randomDraws w)) (seq 0 32)).
  assert (length key = 32%nat) as Hkey by (unfold key; by rewrite length_map, length_seq).
  exists key, (base64_fromByteArray key). split_and!; try done.
  intros m.
  assert (contentKeyBase64 m = inr (JString (base64_fromByteArray key))) as Hfield
    by reflexivity.
  pose proof (Hb64 key Hkey) as Hcek.
  unfold SymmetricEncryption.encryptFile, SymmetricEncryption.decryptFile.
  rewrite (with_content_key _ _ _ _ _ Hfield Hcek).
  destruct (encrypt_256 key file w1 Hkey) as (iv & Hiv & ->).
  eexists. split; [reflexivity|].
  by rewrite (with_content_key _ _ _ _ _ Hfield Hcek),
    (decrypt_encrypted _ _ _ _ Haes Hkey Hiv).
Qed.
End Files.

(** ** The cache over the life of a client *)

Section CacheShape.
Context `{Providers}.

Lemma cachedPrefix_empty : cachedPrefix ∅ 0.
Proof.
  split; [done|]. intros k. rewrite lookup_empty. split.
  - by intros [? ?].
  - intros (j & Hj & _). lia.
Qed.

Lemma is_Some_refill K S (d : nat) (m : gmap number bytes) (k : number) :
  is_Some (fillFrom K S 2 d (<[Qc_of_Z 1 := hashChain K S 1]> m) !! k)
  ↔ (∃ j : Z, 1 ≤ j ≤ 1 + Z.of_nat d ∧ k = Qc_of_Z j) ∨ is_Some (m !! k).
Proof.
  rewrite lookup_fillFrom.
  destruct (fillFrom K S 2 d ∅ !! k) as [v|] eqn:Hfill.
  - split; [intros _|by eauto].
    destruct (entriesOnChain_fillFrom K S d 2 ∅ ltac:(lia)
                (entriesOnChain_empty K S) _ _ Hfill) as (j & _ & -> & _).
    rewrite lookup_fillFrom_empty in Hfill.
    case_bool_decide; [|done]. left. exists j. split; [lia|done].
  - destruct (decide (k = Qc_of_Z 1)) as [->|Hne].
    + rewrite lookup_insert_eq. split; [intros _|by eauto].
      left. exists 1. split; [lia|done].
    + rewrite lookup_insert_ne by done. split; [by right|].
      intros [(j & Hj & ->)|Hm]; [|done].
      rewrite lookup_fillFrom_empty in Hfill.
      case_bool_decide as Hrange; [done|].
      destruct Hne. f_equal. lia.
Qed.

Lemma cachedPrefix_refill K S (d : nat) (m : gmap number bytes) (n : Z) :
  cachedPrefix m n →
  cachedPrefix (fillFrom K S 2 d (<[Qc_of_Z 1 := hashChain K S 1]> m))
    (Z.max n (1 + Z.of_nat d)).
Proof.
  intros [Hn Hm]. split; [lia|]. intros k.
  rewrite is_Some_refill, Hm. split.
  - intros [(j & Hj & ->)|(j & Hj & ->)]; exists j; (split; [lia|done]).
  - intros (j & Hj & ->).
    destruct (decide (j ≤ 1 + Z.of_nat d)); [left|right]; exists j;
      (split; [lia|done]).
Qed.

Lemma cacheShape_consistent w : cacheShape (ratchetCache w) → worldConsistent w.
Proof.
  unfold cacheShape, worldConsistent.
  destruct (ratchetCache w); [by intros [? _]|done].
Qed.

Lemma cachedFor_shape K S w :
  cacheShape (ratchetCache w) → ∃ n, cachedPrefix (cachedFor K S w) n.
Proof.
  unfold cacheShape, cachedFor. destruct (ratchetCache w) as [c|].
  - intros [_ Hprefix]. case_bool_decide; [done|].
    exists 0. apply cachedPrefix_empty.
  - intros _. exists 0. apply cachedPrefix_empty.
Qed.

Lemma ratchetKey_keeps_shape K S x :
  preserves (onCache cacheShape) (SymmetricEncryption.ratchetKey K S x).
Proof.
  intros w Hshape. unfold onCache in *.
  pose proof (cacheShape_consistent w Hshape) as Hw.
  destruct (decide (x ≤ 0)%Qc) as [Hx|Hx].
  - by rewrite ratchetKey_rejects.
  - rewrite ratchetKey_spec by (done || by apply Qcnot_le_lt). cbn [snd].
    destruct (cachedFor_shape K S w Hshape) as [n Hn].
    destruct (cachedFor K S w !! x).
    + cbn. split; [by apply cachedFor_consistent|by exists n].
    + split; [apply (missWorld_consistent K S x w Hw)|].
      unfold missWorld, withCache. cbn. eexists. by apply cachedPrefix_refill.
Qed.

(** Only the ratchet writes to the cache. *)
Lemma perform_keeps (Q : option RatchetCache.t → Prop) :
  (∀ K S x, preserves (onCache Q) (SymmetricEncryption.ratchetKey K S x)) →
  Q None →
  ∀ op w, onCache Q w → onCache Q (perform op w).
Proof.
  intros Hratchet Hnone op. destruct op; cbn [perform].
  - unfold SymmetricEncryption.encryptMetadata.
    apply preserves_bind; [apply Hratchet|intros k].
    destruct (SymmetricEncryption.notAnObject _); [apply preserves_throw|].
    destruct (JSON_stringify _); auto using preserves_encrypt, preserves_throw.
  - unfold SymmetricEncryption.decryptMetadata.
    apply preserves_bind; [apply Hratchet|intros k].
    apply preserves_bind; [apply preserves_decrypt|intros p].
    destruct (JSON_parse _); [|apply preserves_throw].
    destruct (SymmetricEncryption.notAnObject _); [apply preserves_throw|].
    apply preserves_bind; [apply preserves_orThrow|intros ck].
    destruct (negb _); [apply preserves_throw|apply preserves_ret].
  - apply preserves_getRandomValues.
  - unfold SymmetricEncryption.createContentKeyBase64.
    apply preserves_bind; [apply preserves_getRandomValues|intros k; apply preserves_ret].
  - unfold SymmetricEncryption.encryptFile.
    apply preserves_bind; [apply preserves_orThrow|intros f].
    apply preserves_bind; [apply preserves_orThrow|intros k].
    apply preserves_encrypt.
  - unfold SymmetricEncryption.decryptFile.
    apply preserves_bind; [apply preserves_orThrow|intros f].
    apply preserves_bind; [apply preserves_orThrow|intros k].
    apply preserves_decrypt.
  - by intros w _.
  - unfold Signature.createKeyPairFromKeyPhrase.
    apply preserves_bind; [apply preserves_hash|intros k].
    apply preserves_bind; [apply preserves_orThrow|intros p; apply preserves_ret].
Qed.

Lemma reachable_cacheShape (w : World) :
  reachable w → cacheShape (ratchetCache w).
Proof.
  induction 1 as [|op w _ IH]; [done|].
  by apply (perform_keeps cacheShape ratchetKey_keeps_shape I op w).
Qed.

(** X7. After calls made in turn, each settled before the next one is
    made, the cache, when there is one, holds chain keys of its own
    (keyphrase, salt) pair only, under the indices 1, ..., n for some n
    and under no other key: the cached indices have no gap. *)
Theorem calls_in_turn_cache_is_a_prefix (ops : list Operation) :
  cacheShape (ratchetCache (inTurn ops)).
Proof. apply reachable_cacheShape, inTurn_reachable. Qed.
End CacheShape.

Lemma calls_in_turn_cache_is_a_prefix_example :
  cacheShape (H := TestDoubles.providers)
    (ratchetCache
       (inTurn (H := TestDoubles.providers)
          [DecryptMetadata "test123" "my-clipboard" (Qc_of_Z 3) [];
           EncryptMetadata "other" "space" (Qc_of_Z 2) sampleMetadata])).
Proof.
  apply (calls_in_turn_cache_is_a_prefix (H := TestDoubles.providers)).
Defined.

Section CacheSteps.
Context `{Providers}.
Variables K S : string.

Lemma fastCalls_missCalls (first : Z) (d : nat) :
  (λ j, CallFastHash (hashChain K S (j - 1)) (SaltDigest S)) <$> seqZ first (Z.of_nat d)
  = fastCalls K S first (first + Z.of_nat d - 1).
Proof. unfold fastCalls. do 2 f_equal. lia. Qed.

(** A cache that holds nothing for the pair is filled from the start. *)
Lemma ratchetKey_from_nothing (N : Z) w :
  worldConsistent w → cachedFor K S w = ∅ → 1 ≤ N →
  SymmetricEncryption.ratchetKey K S (Qc_of_Z N) w
  = (Resolved (hashChain K S N),
     withCache K S w
       (fillFrom K S 2 (Z.to_nat (N - 1)) (<[Qc_of_Z 1 := hashChain K S 1]> ∅))
       (freshCalls K S N)).
Proof.
  intros Hw Hempty HN.
  rewrite ratchetKey_spec by auto using Qc_of_Z_positive.
  unfold missWorld. rewrite Hempty, !lookup_empty.
  rewrite selectedIndex_integer by done.
  rewrite missCalls_missing by (intros; apply lookup_empty).
  rewrite fastCalls_missCalls. unfold freshCalls. cbn [app].
  by replace (2 + Z.of_nat (Z.to_nat (N - 1)) - 1) with N by lia.
Qed.

Lemma withCache_same w :
  cachedPair w = Some (K, S) → withCache K S w (cachedFor K S w) [] = w.
Proof.
  destruct w as [[[k s m]|] calls draws]; [|done].
  unfold cachedPair, withCache, cachedFor. cbn. intros [= -> ->].
  by rewrite bool_decide_eq_true_2, app_nil_r.
Qed.

Lemma ratchetKey_tags w (x : number) :
  worldConsistent w → (0 < x)%Qc →
  cachedPair (snd (SymmetricEncryption.ratchetKey K S x w)) = Some (K, S).
Proof.
  intros Hw Hx. destruct (ratchetKey_cache K S x w Hw Hx) as (m & Hcache & _).
  unfold cachedPair. by rewrite Hcache.
Qed.

Lemma ratchetKey_caches_index w (N : Z) :
  worldConsistent w → 1 ≤ N →
  cachedFor K S (snd (SymmetricEncryption.ratchetKey K S (Qc_of_Z N) w)) !! Qc_of_Z N
  = Some (hashChain K S N).
Proof.
  intros Hw HN.
  pose proof (cachedFor_consistent K S w Hw) as Hm.
  rewrite ratchetKey_spec by auto using Qc_of_Z_positive. cbn [snd].
  destruct (cachedFor K S w !! Qc_of_Z N) as [v|] eqn:Hlook.
  - rewrite cachedFor_withCache, Hlook.
    by destruct (entriesOnChain_lookup K S _ _ _ Hm Hlook) as [_ ->].
  - unfold missWorld. rewrite cachedFor_withCache, selectedIndex_integer by done.
    rewrite lookup_fillFrom, lookup_fillFrom_empty.
    case_bool_decide; [done|].
    replace N with 1 by lia. by rewrite lookup_insert_eq.
Qed.

End CacheSteps.

Section CacheCosts.
Context `{Providers}.
Variables K S : string.

(** X5. After [clearRatchetCache] there is no cache, and the next
    ratchet to N >= 1 computes the whole chain again: it hashes the
    salt, calls the strong hash once and the fast hash for the steps
    2..N.  In a reachable world it returns the key it returned before
    the cache was cleared. *)
Theorem clearRatchetCache_forces_recomputation (N : Z) (w : World) :
  1 ≤ N →
  let w0 := snd (SymmetricEncryption.clearRatchetCache w) in
  ratchetCache w0 = None
  ∧ fst (SymmetricEncryption.ratchetKey K S (Qc_of_Z N) w0)
    = Resolved (hashChain K S N)
  ∧ kdfCalls (snd (SymmetricEncryption.ratchetKey K S (Qc_of_Z N) w0))
    = kdfCalls w ++ freshCalls K S N
  ∧ (reachable w →
     fst (SymmetricEncryption.ratchetKey K S (Qc_of_Z N) w0)
     = fst (SymmetricEncryption.ratchetKey K S (Qc_of_Z N) w)).
Proof.
  intros HN w0.
  assert (ratchetCache w0 = None) as Hnone by reflexivity.
  rewrite (ratchetKey_from_nothing K S N w0)
    by auto using fresh_consistent, cachedFor_fresh.
  split_and!; try done.
  intros Hw%reachable_consistent.
  by rewrite (ratchetKey_resolved K S _ w), selectedIndex_integer
    by auto using Qc_of_Z_positive.
Qed.


Lemma ratchetKey_again (M N : Z) (w : World) :
  reachable w → 1 ≤ M ≤ N →
  let w1 := snd (SymmetricEncryption.ratchetKey K S (Qc_of_Z N) w) in
  SymmetricEncryption.ratchetKey K S (Qc_of_Z M) w1
  = (Resolved (hashChain K S M), w1).
Proof.
  intros Hreach [HM HN] w1.
  pose proof (reachable_cacheShape w Hreach) as Hshape.
  pose proof (cacheShape_consistent w Hshape) as Hw.
  assert (cacheShape (ratchetCache w1)) as Hshape1
    by (by apply ratchetKey_keeps_shape).
  pose proof (cacheShape_consistent w1 Hshape1) as Hw1.
  destruct (cachedFor_shape K S w1 Hshape1) as (n & _ & Hprefix).
  assert (is_Some (cachedFor K S w1 !! Qc_of_Z M)) as [v Hv].
  { apply Hprefix.
    assert (is_Some (cachedFor K S w1 !! Qc_of_Z N)) as HcN
      by (unfold w1; rewrite (ratchetKey_caches_index K S) by (done || lia); eauto).
    apply Hprefix in HcN as (j & Hj & ->%Z2Qc_inj).
    exists M. split; [lia|done]. }
  rewrite ratchetKey_spec by (done || apply Qc_of_Z_positive; lia).
  rewrite Hv, selectedIndex_integer by done.
  rewrite withCache_same; [done|].
  unfold w1. apply (ratchetKey_tags K S); [done|apply Qc_of_Z_positive; lia].
Qed.

(** X8. An index that is cached costs nothing: in a reachable world,
    after a ratchet for (K, S) to N, a request for any index
    1 <= M <= N of the same pair returns k_M and leaves the world as it
    is, with no call to the KDF, not even to hash the salt. *)
Theorem cached_index_costs_nothing (M N : Z) (w : World) :
  reachable w → 1 ≤ M ≤ N →
  let w1 := snd (SymmetricEncryption.ratchetKey K S (Qc_of_Z N) w) in
  SymmetricEncryption.ratchetKey K S (Qc_of_Z M) w1
  = (Resolved (hashChain K S M), w1).
Proof. apply ratchetKey_again. Qed.

Lemma readMetadata_keeps_world p w : snd (readMetadata p w) = w.
Proof.
  unfold readMetadata. destruct (JSON_parse _) as [m|]; [|done].
  destruct (SymmetricEncryption.notAnObject m); [done|].
  unfold bind. destruct (contentKeyBase64 m) as [e|ck]; [done|]. cbn.
  by destruct (negb (truthy ck)).
Qed.

Lemma decryptMetadata_world (x : number) (blob : bytes) (w : World) :
  snd (SymmetricEncryption.decryptMetadata K S x blob w)
  = snd (SymmetricEncryption.ratchetKey K S x w).
Proof.
  rewrite decryptMetadata_unfold. unfold bind at 1.
  destruct (SymmetricEncryption.ratchetKey K S x w) as [[k| |] w1]; [|done|done].
  unfold bind. pose proof (decrypt_keeps_world k blob w1) as Hkeep.
  destruct (SymmetricEncryption.decrypt k blob w1) as [[p| |] w2];
    cbn [snd] in *; subst; [|done|done].
  apply readMetadata_keeps_world.
Qed.

(** X16. Decrypting again is free: in a reachable world, for every
    index N >= 1 and every blob, a second [decryptMetadata] with the
    same arguments settles as the first did, whether that resolved or
    was rejected, and leaves the world exactly as the first left it: no
    call to the KDF, no random draw, no change of the cache. *)
Theorem second_decryptMetadata_is_free (N : Z) (blob : bytes) (w : World) :
  reachable w → 1 ≤ N →
  let first := SymmetricEncryption.decryptMetadata K S (Qc_of_Z N) blob w in
  let second := SymmetricEncryption.decryptMetadata K S (Qc_of_Z N) blob (snd first) in
  fst second = fst first ∧ snd second = snd first.
Proof.
  intros Hreach HN first second. unfold second, first.
  rewrite !decryptMetadata_world.
  pose proof (ratchetKey_again N N w Hreach ltac:(lia)) as Hagain.
  cbn zeta in Hagain. rewrite Hagain. split; [|done].
  rewrite !decryptMetadata_unfold.
  rewrite (bind_resolved _ _ _ _ _ Hagain).
  rewrite (bind_resolved _ _ _ _ _
             (ratchetKey_resolved K S _ w (reachable_consistent w Hreach)
                (Qc_of_Z_positive N HN))).
  rewrite selectedIndex_integer by done.
  apply opened_any_world.
Qed.

(** X9. In a reachable world whose cache holds the keys 1..n of (K, S),
    with n >= 1 the last cached index, a ratchet to an index N > n
    returns k_N, hashes the salt once and calls the fast hash for the
    steps n+1..N only, on k_n..k_{N-1}; it does not call the strong
    hash. *)
Theorem ratchet_computes_the_missing_suffix (n N : Z) (w : World) :
  reachable w → 1 ≤ n < N →
  is_Some (cachedFor K S w !! Qc_of_Z n) →
  cachedFor K S w !! Qc_of_Z (n + 1) = None →
  fst (SymmetricEncryption.ratchetKey K S (Qc_of_Z N) w) = Resolved (hashChain K S N)
  ∧ kdfCalls (snd (SymmetricEncryption.ratchetKey K S (Qc_of_Z N) w))
    = kdfCalls w ++ CallHashSalt S :: fastCalls K S (n + 1) N.
Proof.
  intros Hreach [Hn HN] Hlast Hnext.
  pose proof (reachable_cacheShape w Hreach) as Hshape.
  pose proof (cacheShape_consistent w Hshape) as Hw.
  destruct (cachedFor_shape K S w Hshape) as (n0 & _ & Hprefix).
  assert (n0 = n) as Hn0; [|subst n0].
  { apply Hprefix in Hlast as (j & Hj & Heq%Z2Qc_inj). subst j.
    destruct (decide (n + 1 ≤ n0)) as [Hle|]; [|lia].
    assert (is_Some (cachedFor K S w !! Qc_of_Z (n + 1))) as [? Hsome]
      by (apply Hprefix; exists (n + 1); split; [lia|done]).
    congruence. }
  assert (∀ j : Z, 1 ≤ j ≤ n → is_Some (cachedFor K S w !! Qc_of_Z j)) as Hin
    by (intros j Hj; apply Hprefix; by exists j).
  assert (∀ j : Z, n < j → cachedFor K S w !! Qc_of_Z j = None) as Hout.
  { intros j Hj. apply eq_None_not_Some.
    intros (j' & Hj' & ->%Z2Qc_inj)%Hprefix. lia. }
  rewrite ratchetKey_spec by auto using Qc_of_Z_positive with lia.
  rewrite Hout by lia. unfold missWorld.
  destruct (Hin 1 ltac:(lia)) as [k1 ->].
  rewrite selectedIndex_integer by lia. cbn [fst snd app withCache kdfCalls].
  split; [done|]. do 2 f_equal.
  replace (Z.to_nat (N - 1)) with (Z.to_nat (n - 1) + Z.to_nat (N - n))%nat by lia.
  rewrite missCalls_app.
  rewrite missCalls_cached by (intros j Hj; apply Hin; lia).
  rewrite missCalls_missing by (intros j Hj; apply Hout; lia).
  rewrite fastCalls_missCalls. cbn [app]. f_equal; lia.
Qed.
End CacheCosts.

(** ** What the metadata operations accept and return *)

Section MetadataEdges.
Context `{Providers}.

(** X10. For a value that passes the shape check and that JSON
    serialises to a text, [encryptMetadata] with a positive count x, in
    a reachable world, returns the 16 bytes of the next draw of the
    random source followed by the AES-GCM encryption, under the chain
    key of index max(1, floor(x)) and with those 16 bytes as IV, of the
    UTF-8 encoding of the text.  It uses up exactly one draw. *)
Theorem encryptMetadata_layout (K S : string) (x : number) (m : JsValue)
    (text : string) (w : World) :
  argon2_length_law → reachable w → (0 < x)%Qc →
  SymmetricEncryption.notAnObject m = false →
  JSON_stringify m = JsonText text →
  let iv := map (randomByte (randomDraws w)) (seq 0 16) in
  fst (SymmetricEncryption.encryptMetadata K S x m w)
  = Resolved (iv ++ AES_GCM_encrypt (hashChain K S (selectedIndex x)) iv
                      (TextEncoder_encode text))
  ∧ randomDraws (snd (SymmetricEncryption.encryptMetadata K S x m w))
    = Datatypes.S (randomDraws w).
Proof.
  intros Hlen Hw%reachable_consistent Hx Hshape Htext iv.
  rewrite encryptMetadata_unfold.
  rewrite (bind_resolved _ _ _ _ _ (ratchetKey_resolved K S x w Hw Hx)).
  unfold sealMetadata. rewrite Hshape, Htext.
  rewrite encrypt_world. cbn [randomDraws].
  unfold SymmetricEncryption.encrypt, bind, SymmetricEncryption.getRandomValues.
  rewrite importKey_256 by (by apply hashChain_length).
  rewrite ratchetKey_randomDraws by done. done.
Qed.

(** X11. When a blob decrypts under the ratcheted key, what
    [decryptMetadata] does with a plaintext that is no record: a text
    that JSON cannot parse is a [SyntaxError]; [null] passes the shape
    check and then fails with a [TypeError]; a truthy value that is not
    an object (true, a number other than 0, a string that is not empty)
    is rejected with "Metadata must be an object"; false, 0 and the
    empty string pass the shape check and are rejected, like an array,
    with "content key not found in metadata". *)
Theorem plaintext_that_is_no_record (K S : string) (x : number) (blob : bytes)
    (w w1 w2 : World) (k p : bytes) :
  SymmetricEncryption.ratchetKey K S x w = (Resolved k, w1) →
  SymmetricEncryption.decrypt k blob w1 = (Resolved p, w2) →
  let parsed := JSON_parse (TextDecoder_decode p) in
  let result := SymmetricEncryption.decryptMetadata K S x blob w in
  (parsed = None → result = (Rejected SyntaxError, w2))
  ∧ (parsed = Some JNull → result = (Rejected TypeError, w2))
  ∧ (∀ v, parsed = Some v → truthy v = true → typeof v ≠ "object" →
          result = (Rejected (Error "Metadata must be an object"), w2))
  ∧ (∀ v, parsed = Some v →
          v = JBoolean false ∨ v = JNumber 0%Qc ∨ v = JString ""
          ∨ (∃ elements, v = JArray elements) →
          result = (Rejected (Error "content key not found in metadata"), w2)).
Proof.
  intros Hratchet Hdecrypt parsed result. unfold result.
  rewrite decryptMetadata_unfold.
  rewrite (bind_resolved _ _ _ _ _ Hratchet), (bind_resolved _ _ _ _ _ Hdecrypt).
  unfold readMetadata. fold parsed. split_and!.
  - by intros ->.
  - by intros ->.
  - intros v -> Htruthy Htype. unfold SymmetricEncryption.notAnObject.
    by rewrite Htruthy, bool_decide_eq_true_2.
  - intros v -> [->|[->|[->|[elements ->]]]]; reflexivity.
Qed.

(** X12. [encryptMetadata] does not look for the content key:
    a record that JSON represents and that has no [contentKeyBase64],
    or a falsy one, is encrypted, in any reachable world and with any
    positive count, and [decryptMetadata] is rejected on the blob with
    "content key not found in metadata". *)
Theorem record_without_content_key_is_encrypted (K S : string) (i : number)
    (properties : list (string * JsValue)) (w1 w2 : World) :
  argon2_length_law → AES_GCM_law →
  reachable w1 → reachable w2 → (0 < i)%Qc →
  jsonRepresentable (JObject properties) →
  (∀ field, ownProperty "contentKeyBase64" properties = Some field →
            truthy field = false) →
  ∃ blob,
    fst (SymmetricEncryption.encryptMetadata K S i (JObject properties) w1)
    = Resolved blob
    ∧ fst (SymmetricEncryption.decryptMetadata K S i blob w2)
      = Rejected (Error "content key not found in metadata").
Proof.
  intros Hlen Haes Hw1%reachable_consistent Hw2%reachable_consistent Hi
    (text & Htext & Hparse) Hkey.
  pose proof (hashChain_length K S (selectedIndex i) Hlen) as Hk.
  rewrite encryptMetadata_unfold.
  rewrite (bind_resolved _ _ _ _ _ (ratchetKey_resolved K S i w1 Hw1 Hi)).
  unfold sealMetadata. rewrite notAnObject_record, Htext.
  destruct (encrypt_256 (hashChain K S (selectedIndex i))
              (TextEncoder_encode text)
              (snd (SymmetricEncryption.ratchetKey K S i w1)) Hk)
    as (iv & Hiv & ->).
  eexists. split; [reflexivity|].
  rewrite decryptMetadata_unfold.
  rewrite (bind_resolved _ _ _ _ _ (ratchetKey_resolved K S i w2 Hw2 Hi)).
  rewrite (bind_resolved _ _ _ _ _ (decrypt_encrypted _ _ _ _ Haes Hk Hiv)).
  unfold readMetadata. rewrite Hparse, notAnObject_record.
  unfold bind, contentKeyBase64.
  destruct (ownProperty "contentKeyBase64" properties) as [field|] eqn:Hfield;
    [|done].
  cbn [orThrow ret]. by rewrite (Hkey field).
Qed.
End MetadataEdges.

(** ** The KDF and the key pair *)

Section KeyDerivation.
Context `{Providers}.

Lemma createKeyPair_outcome (K S : string) (w : World) :
  fst (Signature.createKeyPairFromKeyPhrase K S w)
  = match ed25519_getPublicKey (strongHash K (SaltDigest S)) with
    | inr publicKey =>
        Resolved {| Signature.publicKey := publicKey;
                    Signature.privateKey := strongHash K (SaltDigest S) |}
    | inl e => Rejected e
    end.
Proof.
  unfold Signature.createKeyPairFromKeyPhrase, bind. cbn.
  fold (SaltDigest S). fold (strongHash K (SaltDigest S)).
  by destruct (ed25519_getPublicKey _).
Qed.

(** X13. How [hash] and [fastHash] take their salt: a hashed salt that
    is passed is used as it is and the salt string beside it is ignored
    and never hashed; a salt string alone is hashed first, which gives
    what passing its SHA-256 digest gives; with neither, the call is
    rejected before anything is computed, with the message of the
    function. *)
Theorem Kdf_salt_arguments (keyphrase : string) (key : bytes) (salt : string)
    (hashedSalt : bytes) (w : World) :
  Kdf.hash keyphrase (Some salt) (Some hashedSalt) w
  = Kdf.hash keyphrase None (Some hashedSalt) w
  ∧ kdfCalls (snd (Kdf.hash keyphrase (Some salt) (Some hashedSalt) w))
    = kdfCalls w ++ [CallHash keyphrase hashedSalt]
  ∧ fst (Kdf.hash keyphrase (Some salt) None w)
    = fst (Kdf.hash keyphrase None (Some (SaltDigest salt)) w)
  ∧ Kdf.hash keyphrase None None w
    = (Rejected (Error "Either salt or hashedSalt must be provided."), w)
  ∧ Kdf.fastHash key (Some salt) (Some hashedSalt) w
    = Kdf.fastHash key None (Some hashedSalt) w
  ∧ kdfCalls (snd (Kdf.fastHash key (Some salt) (Some hashedSalt) w))
    = kdfCalls w ++ [CallFastHash key hashedSalt]
  ∧ fst (Kdf.fastHash key (Some salt) None w)
    = fst (Kdf.fastHash key None (Some (SaltDigest salt)) w)
  ∧ Kdf.fastHash key None None w
    = (Rejected (Error "Either salt or saltHash must be provided."), w).
Proof. by split_and!. Qed.

(** X14. The first key of the ratchet is the private key of the key
    pair: whenever [createKeyPairFromKeyPhrase] returns a key pair for
    a keyphrase and a salt, the ratchet with the count 1 returns, in any
    reachable world, the private key of that pair as the key that
    encrypts the metadata. *)
Theorem first_ratchet_key_is_the_private_key (K S : string) (w1 w2 : World)
    (keyPair : Signature.KeyPair) :
  reachable w2 →
  fst (Signature.createKeyPairFromKeyPhrase K S w1) = Resolved keyPair →
  fst (SymmetricEncryption.ratchetKey K S (Qc_of_Z 1) w2)
  = Resolved (Signature.privateKey keyPair).
Proof.
  intros Hw2%reachable_consistent Hpair.
  rewrite (ratchetKey_resolved K S _ w2) by done. cbn [fst].
  rewrite createKeyPair_outcome in Hpair.
  destruct (ed25519_getPublicKey _) as [e|publicKey]; [done|].
  by simplify_eq.
Qed.

(** X15. A derived key pair signs what it verifies: under the law of
    Ed25519, for the key pair [createKeyPairFromKeyPhrase] returns,
    [sign] with the private key returns a signature of any message, and
    [verify] of the message, that signature and the public key returns
    true. *)
Theorem derived_key_pair_signs_and_verifies `{Signer} (K S : string)
    (message : bytes) (w w1 w2 : World) (keyPair : Signature.KeyPair) :
  Ed25519_law →
  fst (Signature.createKeyPairFromKeyPhrase K S w) = Resolved keyPair →
  ∃ signature,
    Signing.sign message (Signature.privateKey keyPair) w1 = (Resolved signature, w1)
    ∧ Signing.verify message signature (Signature.publicKey keyPair) w2
      = (Resolved true, w2).
Proof.
  intros Hlaw Hpair.
  rewrite createKeyPair_outcome in Hpair.
  destruct (ed25519_getPublicKey _) as [e|publicKey] eqn:Hpublic; [done|].
  simplify_eq. cbn [Signature.privateKey Signature.publicKey].
  destruct (Hlaw message _ _ Hpublic) as (signature & Hsign & Hverify).
  exists signature. unfold Signing.sign, Signing.verify.
  by rewrite Hsign, Hverify.
Qed.
End KeyDerivation.

(** ** The properties above on the test doubles *)

Lemma encryptFile_layout_example :
  ∃ blob w',
    SymmetricEncryption.encryptFile (H := TestDoubles.providers)
      sampleMetadata [octet 116; octet 101] initialWorld = (Resolved blob, w')
    ∧ take 16 blob = octet <$> [0; 1; 2; 3; 4; 5; 6; 7; 8; 9; 10; 11; 12; 13; 14; 15]%N
    ∧ randomDraws w' = 1%nat.
Proof.
  edestruct (encryptFile_layout (H := TestDoubles.providers)
               sampleMetadata [octet 116; octet 101] initialWorld)
    as (Hblob & _ & _).
  - reflexivity.
  - reflexivity.
  - apply (bool_decide_unpack _). vm_compute. exact I.
  - eexists _, _. split; [exact Hblob|]. split; reflexivity.
Defined.

Lemma content_key_of_wrong_length_is_refused_example :
  fst (SymmetricEncryption.encryptFile (H := TestDoubles.providers)
         (JObject [("contentKeyBase64", JString "AAAA")]) [octet 116] initialWorld)
  = Rejected DataError.
Proof.
  edestruct (content_key_of_wrong_length_is_refused (H := TestDoubles.providers)
               (JObject [("contentKeyBase64", JString "AAAA")]) [octet 116] []
               initialWorld)
    as (Hencrypt & _).
  - reflexivity.
  - reflexivity.
  - apply (bool_decide_unpack _). vm_compute. exact I.
  - exact Hencrypt.
Defined.

Lemma generated_content_key_serves_example :
  ∃ key key64,
    fst (SymmetricEncryption.createContentKey (H := MoreDoubles.providers) initialWorld)
    = Resolved key
    ∧ length key = 32%nat
    ∧ fst (SymmetricEncryption.createContentKeyBase64 (H := MoreDoubles.providers)
             initialWorld) = Resolved key64
    ∧ key64 = base64_fromByteArray (Providers := MoreDoubles.providers) key
    ∧ ∃ blob,
        fst (SymmetricEncryption.encryptFile (H := MoreDoubles.providers)
               (JObject [("contentKeyBase64", JString key64)]) [octet 116] initialWorld)
        = Resolved blob
        ∧ fst (SymmetricEncryption.decryptFile (H := MoreDoubles.providers)
                 (JObject [("contentKeyBase64", JString key64)]) blob initialWorld)
          = Resolved [octet 116].
Proof.
  apply (generated_content_key_serves (H := MoreDoubles.providers)
           [octet 116] [] initialWorld initialWorld initialWorld).
  - intros b _.
    change (inr (String.list_byte_of_string (String.string_of_list_byte b))
            = (inr b : Exception + bytes)).
    by rewrite String.list_byte_of_string_of_list_byte.
  - intros k iv p. apply TestDoublesLaws.AES_GCM_law.
Defined.

Lemma clearRatchetCache_forces_recomputation_example :
  fst (SymmetricEncryption.ratchetKey (H := TestDoubles.providers)
         "test123" "my-clipboard" (Qc_of_Z 3)
         (snd (SymmetricEncryption.clearRatchetCache initialWorld)))
  = Resolved (hashChain (H := TestDoubles.providers) "test123" "my-clipboard" 3).
Proof.
  pose proof (clearRatchetCache_forces_recomputation (H := TestDoubles.providers)
                "test123" "my-clipboard" 3 initialWorld ltac:(lia)) as Hclear.
  cbn zeta in Hclear. destruct Hclear as (_ & Hkey & _). exact Hkey.
Defined.


Lemma cached_index_costs_nothing_example :
  let w1 := snd (SymmetricEncryption.ratchetKey (H := TestDoubles.providers)
                   "test123" "my-clipboard" (Qc_of_Z 3) initialWorld) in
  SymmetricEncryption.ratchetKey (H := TestDoubles.providers)
    "test123" "my-clipboard" (Qc_of_Z 2) w1
  = (Resolved (hashChain (H := TestDoubles.providers) "test123" "my-clipboard" 2), w1).
Proof.
  apply (cached_index_costs_nothing (H := TestDoubles.providers)
           "test123" "my-clipboard" 2 3 initialWorld).
  - constructor.
  - lia.
Defined.

Lemma ratchet_computes_the_missing_suffix_example :
  let w := perform (H := TestDoubles.providers)
             (DecryptMetadata "test123" "my-clipboard" (Qc_of_Z 2) []) initialWorld in
  kdfCalls (snd (SymmetricEncryption.ratchetKey (H := TestDoubles.providers)
                   "test123" "my-clipboard" (Qc_of_Z 5) w))
  = kdfCalls w
    ++ CallHashSalt "my-clipboard"
       :: fastCalls (H := TestDoubles.providers) "test123" "my-clipboard" 3 5.
Proof.
  apply (ratchet_computes_the_missing_suffix (H := TestDoubles.providers)
           "test123" "my-clipboard" 2 5
           (perform (H := TestDoubles.providers)
              (DecryptMetadata "test123" "my-clipboard" (Qc_of_Z 2) []) initialWorld)).
  - repeat constructor.
  - lia.
  - vm_compute. eauto.
  - vm_compute. reflexivity.
Defined.

Lemma encryptMetadata_layout_example :
  ∃ blob,
    fst (SymmetricEncryption.encryptMetadata (H := TestDoubles.providers)
           "test123" "my-clipboard" (Qc_of_Z 2) sampleMetadata initialWorld)
    = Resolved blob
    ∧ take 16 blob = octet <$> [0; 1; 2; 3; 4; 5; 6; 7; 8; 9; 10; 11; 12; 13; 14; 15]%N.
Proof.
  edestruct (encryptMetadata_layout (H := TestDoubles.providers)
               "test123" "my-clipboard" (Qc_of_Z 2) sampleMetadata)
    as (Hblob & _).
  - intros o _. apply TestDoublesLaws.argon2_length_law.
  - apply reachable_initial.
  - reflexivity.
  - reflexivity.
  - reflexivity.
  - eexists. split; [exact Hblob|reflexivity].
Defined.

Lemma plaintext_that_is_no_record_example :
  let w1 := snd (SymmetricEncryption.ratchetKey (H := TestDoubles.providers)
                   "test123" "my-clipboard" (Qc_of_Z 2) initialWorld) in
  SymmetricEncryption.decryptMetadata (H := TestDoubles.providers)
    "test123" "my-clipboard" (Qc_of_Z 2) nullBlob initialWorld
  = (Rejected TypeError, w1).
Proof.
  intros w1.
  edestruct (plaintext_that_is_no_record (H := TestDoubles.providers)
               "test123" "my-clipboard" (Qc_of_Z 2) nullBlob initialWorld w1 w1)
    as (_ & Hnull & _).
  - vm_compute. reflexivity.
  - vm_compute. reflexivity.
  - apply Hnull. vm_compute. reflexivity.
Defined.

Lemma record_without_content_key_is_encrypted_example :
  ∃ blob,
    fst (SymmetricEncryption.encryptMetadata (H := TestDoubles.providers)
           "test123" "my-clipboard" (Qc_of_Z 2) (JObject []) initialWorld)
    = Resolved blob
    ∧ fst (SymmetricEncryption.decryptMetadata (H := TestDoubles.providers)
             "test123" "my-clipboard" (Qc_of_Z 2) blob initialWorld)
      = Rejected (Error "content key not found in metadata").
Proof.
  apply (record_without_content_key_is_encrypted (H := TestDoubles.providers)
           "test123" "my-clipboard" (Qc_of_Z 2) [] initialWorld initialWorld).
  - intros o _. apply TestDoublesLaws.argon2_length_law.
  - intros k iv p. apply TestDoublesLaws.AES_GCM_law.
  - constructor.
  - constructor.
  - reflexivity.
  - eexists. split; reflexivity.
  - intros field Hfield. discriminate Hfield.
Defined.

Lemma first_ratchet_key_is_the_private_key_example :
  ∃ keyPair,
    fst (Signature.createKeyPairFromKeyPhrase (H := TestDoubles.providers)
           "test123" "my-clipboard" initialWorld) = Resolved keyPair
    ∧ fst (SymmetricEncryption.ratchetKey (H := TestDoubles.providers)
             "test123" "my-clipboard" (Qc_of_Z 1) initialWorld)
      = Resolved (Signature.privateKey keyPair).
Proof.
  eexists. split; [vm_compute; reflexivity|].
  apply (first_ratchet_key_is_the_private_key (H := TestDoubles.providers)
           "test123" "my-clipboard" initialWorld initialWorld).
  - constructor.
  - vm_compute. reflexivity.
Defined.

Lemma derived_key_pair_signs_and_verifies_example :
  ∃ keyPair,
    fst (Signature.createKeyPairFromKeyPhrase (H := TestDoubles.providers)
           "test123" "my-clipboard" initialWorld) = Resolved keyPair
    ∧ ∃ signature,
        Signing.sign (H := MoreDoubles.signer) [octet 116]
          (Signature.privateKey keyPair) initialWorld
        = (Resolved signature, initialWorld)
        ∧ Signing.verify (H := MoreDoubles.signer) [octet 116] signature
            (Signature.publicKey keyPair) initialWorld
          = (Resolved true, initialWorld).
Proof.
  eexists. split; [vm_compute; reflexivity|].
  apply (@derived_key_pair_signs_and_verifies TestDoubles.providers
           MoreDoubles.signer "test123" "my-clipboard" [octet 116]
           initialWorld initialWorld initialWorld).
  - intros message privateKey publicKey Hpublic.
    exists (publicKey ++ message). split.
    + change (MoreDoubles.fake_sign message privateKey = inr (publicKey ++ message)).
      unfold MoreDoubles.fake_sign.
      change (TestDoubles.fake_getPublicKey privateKey = inr publicKey) in Hpublic.
      by rewrite Hpublic.
    + change (MoreDoubles.fake_verify (publicKey ++ message) message publicKey
              = inr true).
      unfold MoreDoubles.fake_verify. by rewrite bool_decide_eq_true_2.
  - vm_compute. reflexivity.
Defined.

Lemma second_decryptMetadata_is_free_example :
  let first := SymmetricEncryption.decryptMetadata (H := TestDoubles.providers)
                 "test123" "my-clipboard" (Qc_of_Z 2) nullBlob initialWorld in
  fst (SymmetricEncryption.decryptMetadata (H := TestDoubles.providers)
         "test123" "my-clipboard" (Qc_of_Z 2) nullBlob (snd first))
  = fst first
  ∧ snd (SymmetricEncryption.decryptMetadata (H := TestDoubles.providers)
           "test123" "my-clipboard" (Qc_of_Z 2) nullBlob (snd first))
    = snd first.
Proof.
  apply (second_decryptMetadata_is_free (H := TestDoubles.providers)
           "test123" "my-clipboard" 2 nullBlob initialWorld).
  - constructor.
  - lia.
Defined.

(** ** Calls that overlap *)

Lemma Task_induction {A} (P : Task A → Prop) :
  (∀ o, P (Settled o)) →
  (∀ resume, (∀ w, P (fst (resume w))) → P (Awaiting resume)) →
  ∀ t, P t.
Proof.
  intros Hsettled Hawaiting. fix IH 1. intros [o|resume].
  - apply Hsettled.
  - apply Hawaiting. intros w. apply IH.
Qed.

Lemma bind_ext {A B} (m m' : M A) (f g : A → M B) w :
  (∀ w', m w' = m' w') → (∀ a w', f a w' = g a w') → bind m f w = bind m' g w.
Proof.
  intros Hm Hfg. unfold bind. rewrite Hm. destruct (m' w) as [[a|e|] w']; auto.
Qed.

(** *** A call that nothing interrupts

    Run from its start to its end, every method does what its
    counterpart in [M] does. *)

Section Alone.
Context `{Providers}.

Lemma alone_run {A B} (m : M A) (k : A → Async B) w :
  alone (Async.run m k) w = (a <- m ;; alone (k a)) w.
Proof. unfold alone, Async.run, bind. by destruct (m w) as [[a|e|] w']. Qed.

Lemma alone_await {A B} (m : M A) (k : A → Async B) w :
  alone (Async.await m k) w = (a <- m ;; alone (k a)) w.
Proof. unfold alone, Async.await, bind. by destruct (m w) as [[a|e|] w']. Qed.

Lemma alone_sync {A} (m : M A) w : alone (Async.sync m) w = m w.
Proof.
  unfold Async.sync. rewrite alone_run. unfold bind.
  by destruct (m w) as [[a|e|] w'].
Qed.

Lemma finish_chain {A B} (k : A → Async B) (t : Task A) : ∀ w,
  finish (chain t k) w = (a <- finish t ;; alone (k a)) w.
Proof.
  induction t as [[a|e|]|resume IH] using Task_induction; intros w; try done.
  cbn. unfold bind. specialize (IH w). destruct (resume w) as [t' w']. apply IH.
Qed.

Lemma alone_awaitCall {A B} (call : Async A) (k : A → Async B) w :
  alone (Async.awaitCall call k) w = (a <- alone call ;; alone (k a)) w.
Proof.
  unfold alone at 1, Async.awaitCall. unfold bind, alone at 1.
  destruct (call w) as [t w']. apply finish_chain.
Qed.

Lemma alone_returned {A} (call : Async A) (m : M A) w :
  (∀ w', alone call w' = m w') →
  alone (Async.awaitCall call (λ a, Async.settle (Resolved a))) w = m w.
Proof.
  intros Hcall. rewrite alone_awaitCall. unfold bind. rewrite Hcall.
  by destruct (m w) as [[a|e|] w'].
Qed.

Lemma alone_encrypt key value w :
  alone (Async.encrypt key value) w = SymmetricEncryption.encrypt key value w.
Proof.
  unfold Async.encrypt, SymmetricEncryption.encrypt.
  rewrite alone_run. apply bind_ext; [done|]. intros iv w1.
  rewrite alone_await. apply bind_ext; [done|]. intros aesKey w2.
  by rewrite alone_await.
Qed.

Lemma alone_decrypt key value w :
  alone (Async.decrypt key value) w = SymmetricEncryption.decrypt key value w.
Proof.
  unfold Async.decrypt, SymmetricEncryption.decrypt. cbn zeta.
  rewrite alone_await. apply bind_ext; [done|]. intros aesKey w1.
  rewrite alone_await. unfold bind. by destruct (AES_GCM_decrypt _ _ _).
Qed.

Lemma alone_ratchetLoop x saltHash fuel : ∀ i ratchetedKey w,
  alone (Async.ratchetLoop fuel i x saltHash ratchetedKey) w
  = SymmetricEncryption.ratchetLoop fuel i x saltHash ratchetedKey w.
Proof.
  induction fuel as [|fuel IH]; intros i ratchetedKey w; [done|].
  cbn [Async.ratchetLoop SymmetricEncryption.ratchetLoop].
  case_bool_decide; [|done].
  rewrite alone_run. apply bind_ext; [done|]. intros [k|] w1.
  - rewrite alone_run. unfold bind at 2. cbn [ret].
    apply bind_ext; [done|]. intros _ w2. apply IH.
  - rewrite alone_await. apply bind_ext; [done|]. intros k w2.
    rewrite alone_run. apply bind_ext; [done|]. intros _ w3. apply IH.
Qed.

Lemma alone_ratchetKey key salt x w :
  alone (Async.ratchetKey key salt x) w = SymmetricEncryption.ratchetKey key salt x w.
Proof.
  unfold Async.ratchetKey, SymmetricEncryption.ratchetKey.
  case_bool_decide; [done|].
  rewrite alone_run. apply bind_ext; [done|]. intros _ w1.
  rewrite alone_run. apply bind_ext; [done|]. intros [k|] w2; [done|].
  rewrite alone_await. apply bind_ext; [done|]. intros saltHash w3.
  rewrite alone_run. apply bind_ext; [done|]. intros [k|] w4.
  - rewrite alone_run. unfold bind at 2. cbn [ret].
    apply bind_ext; [done|]. intros _ w5. apply alone_ratchetLoop.
  - rewrite alone_await. apply bind_ext; [done|]. intros k w5.
    rewrite alone_run. apply bind_ext; [done|]. intros _ w6.
    apply alone_ratchetLoop.
Qed.

Lemma alone_encryptMetadata K S x m w :
  alone (Async.encryptMetadata K S x m) w = SymmetricEncryption.encryptMetadata K S x m w.
Proof.
  unfold Async.encryptMetadata, SymmetricEncryption.encryptMetadata.
  rewrite alone_awaitCall.
  apply bind_ext; [apply alone_ratchetKey|]. intros k w1.
  destruct (SymmetricEncryption.notAnObject m); [done|].
  destruct (JSON_stringify m); [| |done];
    apply alone_returned; intros w2; apply alone_encrypt.
Qed.

Lemma alone_decryptMetadata K S x blob w :
  alone (Async.decryptMetadata K S x blob) w
  = SymmetricEncryption.decryptMetadata K S x blob w.
Proof.
  unfold Async.decryptMetadata, SymmetricEncryption.decryptMetadata.
  rewrite alone_awaitCall.
  apply bind_ext; [apply alone_ratchetKey|]. intros k w1.
  rewrite alone_awaitCall.
  apply bind_ext; [apply alone_decrypt|]. intros p w2.
  cbn zeta. destruct (JSON_parse _) as [metadata|]; [|done].
  destruct (SymmetricEncryption.notAnObject metadata); [done|].
  rewrite alone_run. apply bind_ext; [done|]. intros contentKey w3.
  by destruct (negb (truthy contentKey)).
Qed.

Lemma alone_encryptFile m file w :
  alone (Async.encryptFile m file) w = SymmetricEncryption.encryptFile m file w.
Proof.
  unfold Async.encryptFile, SymmetricEncryption.encryptFile.
  rewrite alone_run. apply bind_ext; [done|]. intros field w1.
  rewrite alone_run. apply bind_ext; [done|]. intros contentKey w2.
  apply alone_returned. intros w3. apply alone_encrypt.
Qed.

Lemma alone_decryptFile m blob w :
  alone (Async.decryptFile m blob) w = SymmetricEncryption.decryptFile m blob w.
Proof.
  unfold Async.decryptFile, SymmetricEncryption.decryptFile.
  rewrite alone_run. apply bind_ext; [done|]. intros field w1.
  rewrite alone_run. apply bind_ext; [done|]. intros contentKey w2.
  apply alone_returned. intros w3. apply alone_decrypt.
Qed.

Lemma alone_createKeyPairFromKeyPhrase K S w :
  alone (Async.createKeyPairFromKeyPhrase K S) w
  = Signature.createKeyPairFromKeyPhrase K S w.
Proof.
  unfold Async.createKeyPairFromKeyPhrase, Signature.createKeyPairFromKeyPhrase.
  rewrite alone_await. apply bind_ext; [done|]. intros privateKey w1.
  by rewrite alone_await.
Qed.

Lemma finish_alone {A} (call : Async A) w :
  finish (fst (call w)) (snd (call w)) = alone call w.
Proof. unfold alone. by destruct (call w). Qed.

(** A call that is made and runs to its end leaves the world of
    [perform]. *)
Lemma launch_alone op w :
  finishJob (fst (launch op w)) (snd (launch op w)) = perform op w.
Proof.
  destruct op; cbn [launch perform job fst snd finishJob]; rewrite finish_alone.
  - by rewrite alone_encryptMetadata.
  - by rewrite alone_decryptMetadata.
  - by rewrite alone_sync.
  - by rewrite alone_sync.
  - by rewrite alone_encryptFile.
  - by rewrite alone_decryptFile.
  - by rewrite alone_sync.
  - by rewrite alone_createKeyPairFromKeyPhrase.
Qed.
End Alone.

(** *** Calls made in turn are among the plays of a client *)

Section Plays.
Context `{Providers}.

Lemma play_app moves1 moves2 c :
  play (moves1 ++ moves2) c = play moves2 (play moves1 c).
Proof. apply foldl_app. Qed.

Lemma play_cons m moves c : play (m :: moves) c = play moves (move c m).
Proof. done. Qed.

Lemma play_to_the_end i {A} (t : Task A) : ∀ w js,
  js !! i = Some (JobOf t) →
  play (replicate (ticks t w) (Resume i)) {| world := w; jobs := js |}
  = {| world := snd (finish t w);
       jobs := <[i := JobOf (Settled (fst (finish t w)))]> js |}.
Proof.
  induction t as [o|r IH] using Task_induction; intros w js Hjob.
  - cbn. by rewrite list_insert_id.
  - cbn [ticks finish]. specialize (IH w).
    destruct (r w) as [t' w'] eqn:Hr. cbn [fst] in IH.
    cbn [replicate]. rewrite play_cons.
    assert (move {| world := w; jobs := js |} (Resume i)
            = {| world := w'; jobs := <[i := JobOf t']> js |}) as ->.
    { unfold move. cbn [world jobs]. rewrite Hjob. cbn [resume job]. by rewrite Hr. }
    rewrite IH.
    + by rewrite list_insert_insert_eq.
    + apply list_lookup_insert_eq. by eapply lookup_lt_Some.
Qed.

Lemma in_turn_is_attainable w : reachable w → attainable w.
Proof.
  induction 1 as [|op w _ [moves ->]]; [by exists []|].
  set (c := play moves initialClient).
  pose proof (launch_alone op (world c)) as Halone.
  destruct (launch op (world c)) as [[A t] w1] eqn:Hlaunch.
  cbn [fst snd finishJob] in Halone.
  exists (moves ++ Call op :: replicate (ticks t w1) (Resume (length (jobs c)))).
  rewrite play_app, play_cons. fold c.
  assert (move c (Call op) = {| world := w1; jobs := jobs c ++ [JobOf t] |}) as ->.
  { unfold move. by rewrite Hlaunch. }
  rewrite play_to_the_end by (by rewrite lookup_app_r, Nat.sub_diag).
  done.
Qed.
End Plays.

(** *** Two calls for two pairs *)

(** C6 fails on the code as it is worded.  When
    [encryptMetadata("test123", "my-clipboard", 3, m)] and
    [encryptMetadata("other", "space", 1, m)] overlap, both settle, and
    the cache is tagged ("other", "space") and holds the first key of
    that pair with the second and third keys of
    ("test123", "my-clipboard").  A later
    [encryptMetadata("other", "space", 2, m)] is served from the cache:
    its key is the second key of ("test123", "my-clipboard"), its blob
    opens under that pair and not under ("other", "space").  And a
    request with the count 0 for another pair than the cached one is
    refused and leaves the cache of the first pair in place. *)
Lemma overlapping_requests_mix_pairs :
  let c := play (H := TestDoubles.providers) overlappingCalls initialClient in
  let chain := hashChain (H := TestDoubles.providers) in
  let w1 := inTurn (H := TestDoubles.providers)
              [EncryptMetadata "test123" "my-clipboard" (Qc_of_Z 3) sampleMetadata] in
  (forallb settled (jobs c) = true
   ∧ cachedPair overlappedWorld = Some ("other", "space")
   ∧ cachedFor "other" "space" overlappedWorld !! Qc_of_Z 1
     = Some (chain "other" "space" 1)
   ∧ cachedFor "other" "space" overlappedWorld !! Qc_of_Z 2
     = Some (chain "test123" "my-clipboard" 2)
   ∧ cachedFor "other" "space" overlappedWorld !! Qc_of_Z 3
     = Some (chain "test123" "my-clipboard" 3)
   ∧ chain "test123" "my-clipboard" 2 ≠ chain "other" "space" 2)
  ∧ (fst (SymmetricEncryption.ratchetKey (H := TestDoubles.providers)
            "other" "space" (Qc_of_Z 2) overlappedWorld)
     = Resolved (chain "test123" "my-clipboard" 2)
     ∧ fst (SymmetricEncryption.encryptMetadata (H := TestDoubles.providers)
              "other" "space" (Qc_of_Z 2) sampleMetadata overlappedWorld)
       = Resolved overlappedBlob
     ∧ fst (SymmetricEncryption.decryptMetadata (H := TestDoubles.providers)
              "test123" "my-clipboard" (Qc_of_Z 2) overlappedBlob initialWorld)
       = Resolved sampleMetadata
     ∧ fst (SymmetricEncryption.decryptMetadata (H := TestDoubles.providers)
              "other" "space" (Qc_of_Z 2) overlappedBlob initialWorld)
       = Rejected OperationError)
  ∧ (cachedPair w1 = Some ("test123", "my-clipboard")
     ∧ SymmetricEncryption.encryptMetadata (H := TestDoubles.providers)
         "other" "space" 0%Qc sampleMetadata w1
       = (Rejected InvalidRatchetCount, w1)
     ∧ cachedFor "test123" "my-clipboard" w1 !! Qc_of_Z 3
       = Some (chain "test123" "my-clipboard" 3)).
Proof.
  cbn zeta. split_and!; try (vm_compute; reflexivity).
  vm_compute. discriminate.
Qed.

(** The world these two calls leave is one a client can bring about,
    and no calls made in turn lead to it. *)
Lemma overlapped_world_is_not_in_turn :
  attainable (H := TestDoubles.providers) overlappedWorld
  ∧ ¬ reachable (H := TestDoubles.providers) overlappedWorld.
Proof.
  split; [by exists overlappingCalls|].
  intros Hconsistent%reachable_consistent.
  apply cachedFor_consistent with (K := "other") (S := "space") in Hconsistent.
  destruct (Hconsistent (Qc_of_Z 2)
              (hashChain (H := TestDoubles.providers) "test123" "my-clipboard" 2))
    as (j & _ & Hj & Hkey); [vm_compute; reflexivity|].
  apply Z2Qc_inj in Hj. subst j. vm_compute in Hkey. discriminate.
Qed.
